(** * Conversation_Manager: a shallow embedding and its properties

    The development models [src/Conversation_Manager.py]: the transcript
    ([conversation_history]), the persona table ([system_messages]), the
    token-budget loop, the request cycle and the JSON persistence of the
    transcript.  Python values are modelled as follows.

    - [str] is a sequence of Unicode code points, [list N];
    - a message dict [{"role": r, "content": c}] is the record [message];
    - [dict] used as a table is a [gmap]; a decoded JSON object keeps its
      items in order, as an association list;
    - the object's attributes are the record [manager]; the file system and
      the standard output are the record [world];
    - a method is a function from [manager * world] to an [outcome] and a
      new [manager * world]; [raise], [try]/[except] and [print] are
      combinators of that monad.

    The [json] module is modelled after CPython's [Lib/json]: the encoder
    with [ensure_ascii=True] and an indent, the scanner in strict mode. *)

From Stdlib Require Import String Ascii NArith ZArith Lia DecimalString.
From stdpp Require Import base option list gmap.

Local Open Scope N_scope.

(** ** Text *)

(** A Python [str]: code points, each below [0x110000]. *)
Abbreviation pystr := (list N).

(** The literal [u "abc"]: its characters as code points. *)
Definition u (s : string) : pystr :=
  List.map N_of_ascii (list_ascii_of_string s).


Definition is_high_surrogate (c : N) : bool := (0xd800 <=? c) && (c <=? 0xdbff).
Definition is_low_surrogate (c : N) : bool := (0xdc00 <=? c) && (c <=? 0xdfff).


(** ** Exceptions *)

Inductive exn :=
  | FileNotFoundError | PermissionError | IsADirectoryError
  | JSONDecodeError | ValueError | TypeError | KeyError | IndexError
  | RecursionError | APIError.

(** What follows [except]: an exception class, or an expression that is not
    one.  Line 245 of the source names [json.JSONDecoder], the decoder
    class, which does not inherit from [BaseException]. *)
Inductive except_target :=
  | CException | COSError | CFileNotFoundError | CKeyError
  | NotAnExceptionClass.

Definition isinstance (e : exn) (c : except_target) : bool :=
  match c, e with
  | CException, _ => true
  | COSError, (FileNotFoundError | PermissionError | IsADirectoryError) => true
  | CFileNotFoundError, FileNotFoundError => true
  | CKeyError, KeyError => true
  | _, _ => false
  end.

Module Json.

(** ** JSON text: strings *)

(** One hexadecimal digit of [format(n, "04x")]. *)
Definition hexchar (d : N) : N := if d <? 10 then 48 + d else 87 + d.

Definition hex4 (n : N) : list N :=
  [ hexchar (N.land (N.shiftr n 12) 15); hexchar (N.land (N.shiftr n 8) 15);
    hexchar (N.land (N.shiftr n 4) 15); hexchar (N.land n 15) ].

(** [\uXXXX] *)
Definition uescape (n : N) : list N := 92 :: 117 :: hex4 n.

(** [encode_basestring_ascii], one character: [ESCAPE_ASCII] matches a
    backslash, a double quote and everything outside [' '..'~'];
    [ESCAPE_DCT] gives the short escapes, the rest is numeric, with a
    surrogate pair above the basic plane. *)
Definition encode_char (c : N) : list N :=
  if (c =? 92) || (c =? 34) || negb ((32 <=? c) && (c <=? 126)) then
    if c =? 92 then [92; 92]
    else if c =? 34 then [92; 34]
    else if c =? 8 then [92; 98]
    else if c =? 12 then [92; 102]
    else if c =? 10 then [92; 110]
    else if c =? 13 then [92; 114]
    else if c =? 9 then [92; 116]
    else if c <? 0x10000 then uescape c
    else
      let n := c - 0x10000 in
      let s1 := N.lor 0xd800 (N.land (N.shiftr n 10) 0x3ff) in
      let s2 := N.lor 0xdc00 (N.land n 0x3ff) in
      uescape s1 ++ uescape s2
  else [c].

Definition encode_chars (s : pystr) : list N := List.flat_map encode_char s.

Definition encode_basestring_ascii (s : pystr) : list N :=
  34 :: encode_chars s ++ [34].

Definition hexval (c : N) : option N :=
  if (48 <=? c) && (c <=? 57) then Some (c - 48)
  else if (97 <=? c) && (c <=? 102) then Some (c - 87)
  else if (65 <=? c) && (c <=? 70) then Some (c - 55)
  else None.

(** [_decode_uXXXX]: four hexadecimal digits, or a decode error. *)
Definition decode_uXXXX (a b c d : N) : option N :=
  match hexval a, hexval b, hexval c, hexval d with
  | Some x, Some y, Some z, Some w => Some (((x * 16 + y) * 16 + z) * 16 + w)
  | _, _, _, _ => None
  end.

(** The [BACKSLASH] table of the decoder. *)
Definition backslash (esc : N) : option N :=
  if esc =? 34 then Some 34
  else if esc =? 92 then Some 92
  else if esc =? 47 then Some 47
  else if esc =? 98 then Some 8
  else if esc =? 102 then Some 12
  else if esc =? 110 then Some 10
  else if esc =? 114 then Some 13
  else if esc =? 116 then Some 9
  else None.

Definition join_surrogates (hi lo : N) : N :=
  0x10000 + N.lor (N.shiftl (hi - 0xd800) 10) (lo - 0xdc00).

Definition cons_char (c : N) (r : option (pystr * list N)) : option (pystr * list N) :=
  match r with
  | Some (s, rest) => Some (c :: s, rest)
  | None => None
  end.

(** [scanstring] in strict mode, called after the opening quote: the
    decoded string and the text after the closing quote; [None] is a
    [JSONDecodeError] (unterminated string, control character, bad
    escape). *)
Fixpoint scanstring (s : list N) : option (pystr * list N) :=
  match s with
  | [] => None
  | c :: s1 =>
      if c =? 34 then Some ([], s1)
      else if c =? 92 then
        match s1 with
        | [] => None
        | esc :: s2 =>
            if esc =? 117 then
              match s2 with
              | h1 :: h2 :: h3 :: h4 :: s3 =>
                  match decode_uXXXX h1 h2 h3 h4 with
                  | None => None
                  | Some uni =>
                      if is_high_surrogate uni then
                        match s3 with
                        | b :: v :: s3' =>
                            if (b =? 92) && (v =? 117) then
                              match s3' with
                              | l1 :: l2 :: l3 :: l4 :: s4 =>
                                  match decode_uXXXX l1 l2 l3 l4 with
                                  | None => None
                                  | Some uni2 =>
                                      if is_low_surrogate uni2
                                      then cons_char (join_surrogates uni uni2) (scanstring s4)
                                      else cons_char uni (scanstring s3)
                                  end
                              | _ => None
                              end
                            else cons_char uni (scanstring s3)
                        | _ => cons_char uni (scanstring s3)
                        end
                      else cons_char uni (scanstring s3)
                  end
              | _ => None
              end
            else
              match backslash esc with
              | Some ch => cons_char ch (scanstring s2)
              | None => None
              end
        end
      else if c <? 32 then None
      else cons_char c (scanstring s1)
  end.


(** ** JSON values *)

(** What [json.load] can return.  A [float] is kept as the literal it was
    read from: floating-point arithmetic is outside this development. *)
#[warnings="-register-all"]
Inductive pyval :=
  | PNone
  | PBool (b : bool)
  | PInt (z : Z)
  | PFloat (lit : pystr)
  | PStr (s : pystr)
  | PList (l : list pyval)
  | PDict (items : list (pystr * pyval)).

(** [d[k] = v] on a dict kept in insertion order: a key already present
    keeps its place. *)
Fixpoint dict_set (k : pystr) (v : pyval) (d : list (pystr * pyval)) :
    list (pystr * pyval) :=
  match d with
  | [] => [(k, v)]
  | (k', v') :: d' =>
      if decide (k = k') then (k, v) :: d' else (k', v') :: dict_set k v d'
  end.

(** ** JSON text: the encoder *)

(** [int.__repr__] *)
Definition repr_int (z : Z) : list N := u (NilZero.string_of_int (Z.to_int z)).

(** ['\n' + _indent * level], with [_indent] made of [indent] spaces. *)
Definition newline_indent (indent level : nat) : list N :=
  10 :: List.repeat 32 (indent * level)%nat.

(** [_iterencode] of [JSONEncoder(indent=indent)], its chunks joined: the
    item separator is [","] and the key separator [": "]. *)
Fixpoint iterencode (indent level : nat) (o : pyval) {struct o} : list N :=
  match o with
  | PNone => u "null"
  | PBool true => u "true"
  | PBool false => u "false"
  | PInt z => repr_int z
  | PFloat lit => lit
  | PStr s => encode_basestring_ascii s
  | PList [] => u "[]"
  | PList (v :: vs) =>
      91 :: newline_indent indent (S level) ++ iterencode indent (S level) v
        ++ (fix items (vs : list pyval) : list N :=
              match vs with
              | [] => []
              | v' :: vs' =>
                  44 :: newline_indent indent (S level)
                    ++ iterencode indent (S level) v' ++ items vs'
              end) vs
        ++ newline_indent indent level ++ [93]
  | PDict [] => u "{}"
  | PDict ((k, v) :: kvs) =>
      123 :: newline_indent indent (S level)
        ++ encode_basestring_ascii k ++ u ": " ++ iterencode indent (S level) v
        ++ (fix items (kvs : list (pystr * pyval)) : list N :=
              match kvs with
              | [] => []
              | (k', v') :: kvs' =>
                  44 :: newline_indent indent (S level)
                    ++ encode_basestring_ascii k' ++ u ": "
                    ++ iterencode indent (S level) v' ++ items kvs'
              end) kvs
        ++ newline_indent indent level ++ [125]
  end.

(** [json.dumps(o, indent=indent)] *)
Definition dumps (indent : nat) (o : pyval) : list N := iterencode indent 0 o.

(** ** JSON text: the scanner *)

Inductive scan_result :=
  | Scanned (v : pyval) (rest : list N)
  | ScanError        (** [JSONDecodeError], whatever its message *)
  | ScanFuel.        (** the model's recursion bound was reached *)

Definition is_ws (c : N) : bool := (c =? 32) || (c =? 9) || (c =? 10) || (c =? 13).

(** [WHITESPACE.match(s, end).end()] *)
Fixpoint skip_ws (s : list N) : list N :=
  match s with
  | c :: s' => if is_ws c then skip_ws s' else s
  | [] => []
  end.

Definition is_digit (c : N) : bool := (48 <=? c) && (c <=? 57).

Fixpoint digits (s : list N) : list N * list N :=
  match s with
  | c :: s' =>
      if is_digit c then let '(ds, r) := digits s' in (c :: ds, r) else ([], s)
  | [] => ([], [])
  end.

(** [int(lexeme)] for a run of decimal digits *)
Definition int_of_digits (ds : list N) : Z :=
  fold_left (fun acc d => (acc * 10 + Z.of_N (d - 48))%Z) ds 0%Z.

Fixpoint starts_with (p s : list N) : option (list N) :=
  match p, s with
  | [], _ => Some s
  | a :: p', b :: s' => if a =? b then starts_with p' s' else None
  | _ :: _, [] => None
  end.

(** [NUMBER_RE]: an optional minus sign, then a zero or a non-zero digit
    followed by digits; then optionally a dot and digits; then optionally
    an [e] or [E], a sign and digits.  Digits are ASCII digits, as in the C
    scanner; an integer lexeme gives an [int], one with a fraction or an
    exponent a [float]. *)
Definition match_number (s : list N) : option (pyval * list N) :=
  let '(neg, s1) :=
    match s with
    | c :: s' => if c =? 45 then (true, s') else (false, s)
    | [] => (false, s)
    end in
  let sign := if neg then [45] else [] in
  let integer :=
    match s1 with
    | c :: s2 =>
        if c =? 48 then Some ([c], s2)
        else if is_digit c then let '(ds, r) := digits s2 in Some (c :: ds, r)
        else None
    | [] => None
    end in
  match integer with
  | None => None
  | Some (int_ds, r1) =>
      let '(frac, r2) :=
        match r1 with
        | c :: r =>
            if c =? 46 then
              match digits r with
              | ([], _) => ([], r1)
              | (ds, r') => (c :: ds, r')
              end
            else ([], r1)
        | [] => ([], r1)
        end in
      let '(exp, r3) :=
        match r2 with
        | c :: r =>
            if (c =? 101) || (c =? 69) then
              let '(sg, r') :=
                match r with
                | d :: r' => if (d =? 43) || (d =? 45) then ([d], r') else ([], r)
                | [] => ([], r)
                end in
              match digits r' with
              | ([], _) => ([], r2)
              | (ds, r'') => (c :: sg ++ ds, r'')
              end
            else ([], r2)
        | [] => ([], r2)
        end in
      match frac, exp with
      | [], [] =>
          Some (PInt (if neg then - int_of_digits int_ds else int_of_digits int_ds)%Z, r3)
      | _, _ => Some (PFloat (sign ++ int_ds ++ frac ++ exp), r3)
      end
  end.

(** The constants and numbers of [_scan_once], tried after the string,
    object and array cases. *)
Definition scan_atom (s : list N) : scan_result :=
  match starts_with (u "null") s with
  | Some r => Scanned PNone r
  | None =>
  match starts_with (u "true") s with
  | Some r => Scanned (PBool true) r
  | None =>
  match starts_with (u "false") s with
  | Some r => Scanned (PBool false) r
  | None =>
  match match_number s with
  | Some (v, r) => Scanned v r
  | None =>
  match starts_with (u "NaN") s with
  | Some r => Scanned (PFloat (u "NaN")) r
  | None =>
  match starts_with (u "Infinity") s with
  | Some r => Scanned (PFloat (u "Infinity")) r
  | None =>
  match starts_with (u "-Infinity") s with
  | Some r => Scanned (PFloat (u "-Infinity")) r
  | None => ScanError
  end end end end end end end.

(** [_scan_once], [JSONArray] and [JSONObject].  [array_items] is the loop
    of [JSONArray], entered before a value; [object_items] the loop of
    [JSONObject], entered after the opening quote of a key.  A
    [StopIteration] of [_scan_once] reaches the caller of the decoder as a
    [JSONDecodeError], so both are [ScanError] here.  Each call uses one
    unit of [fuel]. *)
Fixpoint scan_once (fuel : nat) (s : list N) {struct fuel} : scan_result :=
  match fuel with
  | O => ScanFuel
  | S f =>
      match s with
      | [] => ScanError
      | c :: s1 =>
          if c =? 34 then
            match scanstring s1 with
            | Some (str, rest) => Scanned (PStr str) rest
            | None => ScanError
            end
          else if c =? 123 then
            match skip_ws s1 with
            | d :: s2 =>
                if d =? 125 then Scanned (PDict []) s2
                else if d =? 34 then object_items f s2 []
                else ScanError
            | [] => ScanError
            end
          else if c =? 91 then
            match skip_ws s1 with
            | d :: s2 =>
                if d =? 93 then Scanned (PList []) s2
                else array_items f (d :: s2) []
            | [] => array_items f [] []
            end
          else scan_atom s
      end
  end

with array_items (fuel : nat) (s : list N) (acc : list pyval) {struct fuel} : scan_result :=
  match fuel with
  | O => ScanFuel
  | S f =>
      match scan_once f s with
      | Scanned v rest =>
          match skip_ws rest with
          | c :: rest' =>
              if c =? 93 then Scanned (PList (acc ++ [v])) rest'
              else if c =? 44 then array_items f (skip_ws rest') (acc ++ [v])
              else ScanError
          | [] => ScanError
          end
      | ScanError => ScanError
      | ScanFuel => ScanFuel
      end
  end

with object_items (fuel : nat) (s : list N) (acc : list (pystr * pyval)) {struct fuel} : scan_result :=
  match fuel with
  | O => ScanFuel
  | S f =>
      match scanstring s with
      | None => ScanError
      | Some (key, r1) =>
          match skip_ws r1 with
          | c :: r2 =>
              if c =? 58 then
                match scan_once f (skip_ws r2) with
                | Scanned v r3 =>
                    match skip_ws r3 with
                    | d :: r4 =>
                        if d =? 125 then Scanned (PDict (dict_set key v acc)) r4
                        else if d =? 44 then
                          match skip_ws r4 with
                          | q :: r5 =>
                              if q =? 34 then object_items f r5 (dict_set key v acc)
                              else ScanError
                          | [] => ScanError
                          end
                        else ScanError
                    | [] => ScanError
                    end
                | ScanError => ScanError
                | ScanFuel => ScanFuel
                end
              else ScanError
          | [] => ScanError
          end
      end
  end.

(** [json.loads]: leading whitespace, one value, trailing whitespace and
    nothing else.  The fuel is more than a text of that length can use. *)
Definition loads (s : list N) : scan_result :=
  match scan_once (2 * length s + 2) (skip_ws s) with
  | Scanned v rest =>
      match skip_ws rest with
      | [] => Scanned v []
      | _ :: _ => ScanError
      end
  | r => r
  end.

End Json.

(** ** Messages and the transcript *)

Record message := Message { role : pystr; content : pystr }.

#[global] Instance message_eq_dec : EqDecision message.
Proof. solve_decision. Defined.

Definition system_msg (text : pystr) : message := Message (u "system") text.
Definition user_msg (text : pystr) : message := Message (u "user") text.
Definition assistant_msg (text : pystr) : message := Message (u "assistant") text.

(** The dict [{"role": r, "content": c}] as [json] sees it. *)
Definition message_to_py (m : message) : Json.pyval :=
  Json.PDict [(u "role", Json.PStr (role m)); (u "content", Json.PStr (content m))].

Definition history_to_py (h : list message) : Json.pyval :=
  Json.PList (List.map message_to_py h).

Definition py_to_message (v : Json.pyval) : option message :=
  match v with
  | Json.PDict [(k1, Json.PStr r); (k2, Json.PStr c)] =>
      if decide (k1 = u "role" ∧ k2 = u "content") then Some (Message r c) else None
  | _ => None
  end.

(** A decoded value that is a list of message dicts, as a transcript. *)
Definition py_to_history (v : Json.pyval) : option (list message) :=
  match v with
  | Json.PList l => mapM py_to_message l
  | _ => None
  end.



(** The JSON text of one message at indent level 1, and of the messages
    after the first. *)
Definition encode_message (m : message) : list N :=
  Json.iterencode 4 1 (message_to_py m).

Definition encode_more (ms : list message) : list N :=
  flat_map (λ m, 44 :: Json.newline_indent 4 1 ++ encode_message m) ms.

(** ** The world: files and standard output *)

(** A file-system entry.  Paths are flat names; a file that is absent can
    be created (the constructor makes the history folder). *)
Inductive node :=
  | Dir
  | File (readable writable : bool) (data : list N).

(** The lines the source prints, one constructor per [print]. *)
Inductive diag :=
  | WarnModelNotFound (model : pystr)          (* line 79 *)
  | ErrTotalTokens (e : exn)                   (* line 103 *)
  | ErrEnforceBudget (e : exn)                 (* line 125 *)
  | ErrUpdateSystemMessage (e : exn)           (* line 183 *)
  | ErrGenerating (e : exn)                    (* line 219 *)
  | ErrReadingHistory                          (* line 246 *)
  | ErrSaveIO (e : exn)                        (* line 263 *)
  | ErrSaveUnexpected (e : exn)                (* line 266 *)
  | ErrReset (e : exn).                        (* line 285 *)

Record world := World { fs : gmap pystr node; stdout : list diag }.

(** [open(path, "r").read()] *)
Definition open_read (files : gmap pystr node) (path : pystr) : exn + list N :=
  match files !! path with
  | None => inl FileNotFoundError
  | Some Dir => inl IsADirectoryError
  | Some (File r _ data) => if r then inr data else inl PermissionError
  end.

(** [open(path, "w").write(data)]: the file is created or overwritten. *)
Definition open_write (files : gmap pystr node) (path : pystr) (data : list N) :
    exn + gmap pystr node :=
  match files !! path with
  | None => inr (<[path := File true true data]> files)
  | Some Dir => inl IsADirectoryError
  | Some (File r w _) =>
      if w then inr (<[path := File r w data]> files) else inl PermissionError
  end.

(** [os.path.join] of [posixpath], two components. *)
Definition os_path_join (a b : pystr) : pystr :=
  match b with
  | 47 :: _ => b
  | _ => if decide (a = []) then b
         else if decide (last a = Some 47) then a ++ b else a ++ 47 :: b
  end.

(** ** The injected capabilities *)

(** [tiktoken] and the completion endpoint of the [OpenAI] client.
    [encoding_for_model] answers [None] where the library raises [KeyError];
    [encode] and the endpoint answer [inl e] where they raise [e].  The
    endpoint's answer is the list of [choices[i].message.content]. *)
Class Capabilities := {
  Encoding : Type;
  encoding_for_model : pystr → option Encoding;
  encode : Encoding → pystr → exn + list N;
  Temperature : Type;
  chat_completions_create :
    pystr → list message → Temperature → Z → exn + list pystr
}.

(** A tokenizer with one token per character, and two endpoints: one that
    always fails and one that always answers [hello]. *)
Definition char_encoding_for_model (model : pystr) : option unit :=
  if decide (model = u "gpt-3.5-turbo") then Some tt else None.

Definition failing_service : Capabilities := {|
  Encoding := unit;
  encoding_for_model := char_encoding_for_model;
  encode := λ _ text, inr text;
  Temperature := N;
  chat_completions_create := λ _ _ _ _, inl APIError
|}.

Definition hello_service : Capabilities := {|
  Encoding := unit;
  encoding_for_model := char_encoding_for_model;
  encode := λ _ text, inr text;
  Temperature := N;
  chat_completions_create := λ _ _ _ _, inr [u "hello"]
|}.

(** A tokenizer that, like [tiktoken] on a special token, raises on the
    text [<|endoftext|>], and an endpoint that answers with no choice. *)
Definition special_token_service : Capabilities := {|
  Encoding := unit;
  encoding_for_model := char_encoding_for_model;
  encode := λ _ text,
    if decide (text = u "<|endoftext|>") then inl ValueError else inr text;
  Temperature := N;
  chat_completions_create := λ _ _ _ _, inl APIError
|}.

Definition mute_service : Capabilities := {|
  Encoding := unit;
  encoding_for_model := char_encoding_for_model;
  encode := λ _ text, inr text;
  Temperature := N;
  chat_completions_create := λ _ _ _ _, inr []
|}.

(** ** Outcomes *)

(** Why a run left the model: the recursion bound of a loop was reached, or
    [conversation_history] was bound to a value that is not a list of
    message dicts. *)
Inductive beyond := OutOfFuel | ForeignHistory (v : Json.pyval).

Inductive outcome (A : Type) :=
  | Return (a : A)
  | Raise (e : exn)
  | Beyond (b : beyond).
Arguments Return {A} a.
Arguments Raise {A} e.
Arguments Beyond {A} b.

(** ** The manager *)

Section Manager.
Context `{Cap : Capabilities}.

(** The attributes of a [Conversation_Manager].  The [client] is the
    capability [chat_completions_create]. *)
Record manager := Manager {
  base_url : pystr;
  history_file : pystr;
  default_model : pystr;
  default_temperature : Temperature;
  default_max_tokens : Z;
  token_budget : Z;
  system_messages : gmap pystr pystr;
  system_message : pystr;
  conversation_history : list message
}.

Definition with_history (h : list message) (m : manager) : manager :=
  Manager (base_url m) (history_file m) (default_model m) (default_temperature m)
    (default_max_tokens m) (token_budget m) (system_messages m) (system_message m) h.

Definition with_system_message (t : pystr) (m : manager) : manager :=
  Manager (base_url m) (history_file m) (default_model m) (default_temperature m)
    (default_max_tokens m) (token_budget m) (system_messages m) t
    (conversation_history m).

Definition with_system_messages (tbl : gmap pystr pystr) (m : manager) : manager :=
  Manager (base_url m) (history_file m) (default_model m) (default_temperature m)
    (default_max_tokens m) (token_budget m) tbl (system_message m)
    (conversation_history m).

(** *** Methods as state transformers *)

Definition M (A : Type) : Type := manager * world → outcome A * (manager * world).

Definition M_ret {A} (a : A) : M A := λ σ, (Return a, σ).

Definition M_bind {A B} (k : A → M B) (c : M A) : M B :=
  λ σ, match c σ with
       | (Return a, σ') => k a σ'
       | (Raise e, σ') => (Raise e, σ')
       | (Beyond b, σ') => (Beyond b, σ')
       end.

#[global] Instance M_mret : MRet M := @M_ret.
#[global] Instance M_mbind : MBind M := @M_bind.

Definition raise {A} (e : exn) : M A := λ σ, (Raise e, σ).
Definition leave {A} (b : beyond) : M A := λ σ, (Beyond b, σ).

(** [self.f] *)
Definition attr {A} (f : manager → A) : M A := λ σ, (Return (f σ.1), σ).

(** [self.f = v] *)
Definition assign (f : manager → manager) : M unit := λ σ, (Return tt, (f σ.1, σ.2)).

Definition print (d : diag) : M unit :=
  λ σ, (Return tt, (σ.1, World (fs σ.2) (stdout σ.2 ++ [d]))).

Definition lift_option {A} (e : exn) (o : option A) : M A :=
  match o with Some a => mret a | None => raise e end.

Definition lift_sum {A} (r : exn + A) : M A :=
  match r with inr a => mret a | inl e => raise e end.

(** The [except] clauses of a [try], tried in order.  Matching an exception
    against something that is not an exception class raises [TypeError]
    (CPython: catching classes that do not inherit from BaseException is
    not allowed). *)
Fixpoint handle {A} (e : exn) (clauses : list (except_target * (exn → M A))) : M A :=
  match clauses with
  | [] => raise e
  | (NotAnExceptionClass, _) :: _ => raise TypeError
  | (c, handler) :: rest => if isinstance e c then handler e else handle e rest
  end.

Definition try_except {A} (body : M A) (clauses : list (except_target * (exn → M A))) : M A :=
  λ σ, match body σ with
       | (Raise e, σ') => handle e clauses σ'
       | r => r
       end.

(** *** [count_tokens], lines 72-84 *)
Definition count_tokens (text : pystr) : M Z :=
  model ← attr default_model;
  encoding ← try_except (lift_option KeyError (encoding_for_model model))
    [(CKeyError, λ _,
        print (WarnModelNotFound model);;
        lift_option KeyError (encoding_for_model (u "gpt-3.5-turbo")))];
  tokens ← lift_sum (encode encoding text);
  mret (Z.of_nat (length tokens)).

(** *** [total_tokens_used], lines 94-104 *)
Fixpoint sum_tokens (h : list message) (sum : Z) : M Z :=
  match h with
  | [] => mret sum
  | message :: h' =>
      n ← count_tokens (content message);
      sum_tokens h' (sum + n)%Z
  end.

Definition total_tokens_used : M (option Z) :=
  try_except
    (h ← attr conversation_history;
     sum ← sum_tokens h 0%Z;
     mret (Some sum))
    [(CException, λ e, print (ErrTotalTokens e);; mret None)].

(** [a > b] where [a] may be [None]: comparing [None] with an [int] raises
    [TypeError]. *)
Definition py_gt (a : option Z) (b : Z) : M bool :=
  match a with
  | Some x => mret (b <? x)%Z
  | None => raise TypeError
  end.

(** *** [enforce_token_budget], lines 114-125 *)

(** The [while] loop, bounded by [fuel] iterations. *)
Fixpoint budget_loop (fuel : nat) : M unit :=
  match fuel with
  | O => leave OutOfFuel
  | S f =>
      total ← total_tokens_used;
      budget ← attr token_budget;
      over ← py_gt total budget;
      if over : bool then
        h ← attr conversation_history;
        if (length h <=? 1)%nat then mret tt
        else assign (with_history (delete 1%nat h));; budget_loop f
      else mret tt
  end.

Definition enforce_token_budget : M unit :=
  try_except
    (h ← attr conversation_history;
     budget_loop (S (length h)))
    [(CException, λ e, print (ErrEnforceBudget e))].

(** The same loop as a relation, with no bound: [budget_while σ r] when
    the [while] statement of lines 117-122, started in [σ], ends with [r]. *)
Inductive budget_while :
    manager * world → outcome unit * (manager * world) → Prop :=
  | while_raise σ σ1 e :
      total_tokens_used σ = (Raise e, σ1) →
      budget_while σ (Raise e, σ1)
  | while_leave σ σ1 b :
      total_tokens_used σ = (Beyond b, σ1) →
      budget_while σ (Beyond b, σ1)
  | while_none σ σ1 :
      total_tokens_used σ = (Return None, σ1) →
      budget_while σ (Raise TypeError, σ1)
  | while_within σ σ1 t :
      total_tokens_used σ = (Return (Some t), σ1) →
      (t ≤ token_budget σ1.1)%Z →
      budget_while σ (Return tt, σ1)
  | while_break σ σ1 t :
      total_tokens_used σ = (Return (Some t), σ1) →
      (token_budget σ1.1 < t)%Z →
      (length (conversation_history σ1.1) ≤ 1)%nat →
      budget_while σ (Return tt, σ1)
  | while_pop σ σ1 t r :
      total_tokens_used σ = (Return (Some t), σ1) →
      (token_budget σ1.1 < t)%Z →
      (1 < length (conversation_history σ1.1))%nat →
      budget_while
        (with_history (delete 1%nat (conversation_history σ1.1)) σ1.1, σ1.2) r →
      budget_while σ r.

(** *** [update_system_message_in_history], lines 172-183 *)
Definition update_system_message_in_history : M unit :=
  try_except
    (h ← attr conversation_history;
     text ← attr system_message;
     match h with
     | first :: rest =>
         if decide (role first = u "system")
         then assign (with_history (Message (role first) text :: rest))
         else assign (with_history (system_msg text :: h))
     | [] => assign (with_history (system_msg text :: h))
     end)
    [(CException, λ e, print (ErrUpdateSystemMessage e))].

(** *** [set_persona], lines 137-144 *)
Definition set_persona (persona : pystr) : M unit :=
  table ← attr system_messages;
  match table !! persona with
  | Some text =>
      assign (with_system_message text);;
      update_system_message_in_history
  | None => raise ValueError
  end.

(** *** [set_custom_system_message], lines 156-163 *)
Definition set_custom_system_message (custom_message : pystr) : M unit :=
  if decide (custom_message = []) then raise ValueError
  else
    table ← attr system_messages;
    assign (with_system_messages (<[u "custom" := custom_message]> table));;
    set_persona (u "custom").

(** *** [save_conversation_history], lines 256-266 *)
Definition write_file (path : pystr) (data : list N) : M unit :=
  λ σ, match open_write (fs σ.2) path data with
       | inr files => (Return tt, (σ.1, World files (stdout σ.2)))
       | inl e => (Raise e, σ)
       end.

Definition save_conversation_history : M unit :=
  try_except
    (path ← attr history_file;
     h ← attr conversation_history;
     write_file path (Json.dumps 4 (history_to_py h)))
    [(COSError, λ e, print (ErrSaveIO e));
     (CException, λ e, print (ErrSaveUnexpected e))].

(** *** [load_conversation_history], lines 234-247 *)
Definition read_file (path : pystr) : M (list N) :=
  λ σ, match open_read (fs σ.2) path with
       | inr data => (Return data, σ)
       | inl e => (Raise e, σ)
       end.

Definition json_load (text : list N) : M Json.pyval :=
  match Json.loads text with
  | Json.Scanned v _ => mret v
  | Json.ScanError => raise JSONDecodeError
  | Json.ScanFuel => leave OutOfFuel
  end.

(** [self.conversation_history = v] for a decoded value [v]. *)
Definition assign_history (v : Json.pyval) : M unit :=
  match py_to_history v with
  | Some h => assign (with_history h)
  | None => leave (ForeignHistory v)
  end.

Definition fresh_history : M unit :=
  text ← attr system_message;
  assign (with_history [system_msg text]).

Definition load_conversation_history : M unit :=
  try_except
    (path ← attr history_file;
     text ← read_file path;
     v ← json_load text;
     assign_history v)
    [(CFileNotFoundError, λ _, fresh_history);
     (NotAnExceptionClass, λ _, print ErrReadingHistory;; fresh_history)].

(** *** [reset_conversation_history], lines 276-285 *)
Definition reset_conversation_history : M unit :=
  fresh_history;;
  try_except save_conversation_history [(CException, λ e, print (ErrReset e))].

(** *** [chat_completion], lines 199-227 *)
Definition chat_completion (prompt : pystr) (temperature : option Temperature)
    (max_tokens : option Z) (model : option pystr) : M (option pystr) :=
  default_t ← attr default_temperature;
  default_n ← attr default_max_tokens;
  default_m ← attr default_model;
  let temperature := default default_t temperature in
  let max_tokens := default default_n max_tokens in
  let model := default default_m model in
  h ← attr conversation_history;
  assign (with_history (h ++ [user_msg prompt]));;
  enforce_token_budget;;
  messages ← attr conversation_history;
  response ← try_except
    (choices ← lift_sum (chat_completions_create model messages temperature max_tokens);
     mret (Some choices))
    [(CException, λ e, print (ErrGenerating e);; mret None)];
  match response with
  | None => mret None
  | Some choices =>
      ai_response ← lift_option IndexError (head choices);
      h ← attr conversation_history;
      assign (with_history (h ++ [assistant_msg ai_response]));;
      save_conversation_history;;
      mret (Some ai_response)
  end.

(** *** The persona table and [__init__], lines 27-60 *)
Definition builtin_personas : list (pystr * pystr) :=
  [ (u "normal_assistant",
     u "You are a normal, cooperative assistant that does what they are told.");
    (u "sassy_assistant",
     u "You are a sassy assistant that is fed up with answering questions.");
    (u "angry_assistant",
     u "You are an angry assistant that likes yelling in all caps.");
    (u "thoughtful_assistant",
     u "You are a thoughtful assistant, always ready to dig deeper. You ask clarifying questions to ensure understanding and approach problems with a step-by-step methodology.") ].

Definition default_persona_text : pystr :=
  u "You are a normal, cooperative assistant that does what they are told.".

Definition initial_system_messages : gmap pystr pystr :=
  list_to_map (builtin_personas ++ [(u "custom", u "Enter your custom system message here.")]).

(** The constructor.  [timestamp] is [datetime.now().strftime(...)]; the
    transcript attribute is bound by [load_conversation_history], and a
    constructor that raises yields no object. *)
Definition __init__ (url history_folder : pystr) (history_file : option pystr)
    (timestamp : pystr) (model : pystr) (temperature : Temperature)
    (max_tokens budget : Z) (w : world) : outcome unit * (manager * world) :=
  let w1 :=
    match fs w !! history_folder with
    | None => World (<[history_folder := Dir]> (fs w)) (stdout w)
    | Some _ => w
    end in
  let path :=
    match history_file with
    | None =>
        os_path_join history_folder
          (u "conversation_history_" ++ timestamp ++ u ".json")
    | Some f => os_path_join history_folder f
    end in
  let table := initial_system_messages in
  let text := default [] (table !! u "normal_assistant") in
  load_conversation_history
    (Manager url path model temperature max_tokens budget table text [], w1).

(** *** The states of a manager *)

(** A call of a method, with its arguments. *)
Inductive call :=
  | CountTokens (text : pystr)
  | TotalTokensUsed
  | EnforceTokenBudget
  | SetPersona (persona : pystr)
  | SetCustomSystemMessage (custom_message : pystr)
  | UpdateSystemMessageInHistory
  | ChatCompletion (prompt : pystr) (temperature : option Temperature)
      (max_tokens : option Z) (model : option pystr)
  | LoadConversationHistory
  | SaveConversationHistory
  | ResetConversationHistory.

Definition void {A} (c : M A) : M unit := c ≫= λ _, mret tt.

Definition run (c : call) : M unit :=
  match c with
  | CountTokens text => void (count_tokens text)
  | TotalTokensUsed => void total_tokens_used
  | EnforceTokenBudget => enforce_token_budget
  | SetPersona persona => set_persona persona
  | SetCustomSystemMessage text => set_custom_system_message text
  | UpdateSystemMessageInHistory => update_system_message_in_history
  | ChatCompletion prompt t n mo => void (chat_completion prompt t n mo)
  | LoadConversationHistory => load_conversation_history
  | SaveConversationHistory => save_conversation_history
  | ResetConversationHistory => reset_conversation_history
  end.

(** The states a manager can be in: the constructor returned it, or a
    method was called on it and returned or raised, or the files changed
    under it. *)
Inductive reachable : manager * world → Prop :=
  | reach_init url folder file timestamp model temperature max_tokens budget w σ :
      __init__ url folder file timestamp model temperature max_tokens budget w
        = (Return tt, σ) →
      reachable σ
  | reach_call c σ r σ' :
      reachable σ → run c σ = (r, σ') → (∀ b, r ≠ Beyond b) → reachable σ'
  | reach_world m w w' :
      reachable (m, w) → reachable (m, w').

(** *** Pure readings of the tokenizer and of the budget loop *)

(** The world after printing the lines [ds]. *)
Definition log (ds : list diag) (w : world) : world :=
  World (fs w) (stdout w ++ ds).

(** What [count_tokens] returns or raises for [text]. *)
Definition tokens_of_text (m : manager) (text : pystr) : exn + Z :=
  let encoding :=
    match encoding_for_model (default_model m) with
    | Some enc => Some enc
    | None => encoding_for_model (u "gpt-3.5-turbo")
    end in
  match encoding with
  | Some enc =>
      match encode enc text with
      | inr tokens => inr (Z.of_nat (length tokens))
      | inl e => inl e
      end
  | None => inl KeyError
  end.

(** The sum [total_tokens_used] returns; [None] where it returns [None]. *)
Fixpoint total_of (m : manager) (h : list message) : option Z :=
  match h with
  | [] => Some 0%Z
  | x :: h' =>
      match tokens_of_text m (content x), total_of m h' with
      | inr n, Some t => Some (n + t)%Z
      | _, _ => None
      end
  end.

Definition over_budget (m : manager) (h : list message) : bool :=
  match total_of m h with
  | Some t => (token_budget m <? t)%Z
  | None => false
  end.

(** The messages after [first] that survive the loop. *)
Fixpoint survivors (m : manager) (first : message) (rest : list message) : list message :=
  match rest with
  | [] => []
  | _ :: rest' =>
      if over_budget m (first :: rest) then survivors m first rest' else rest
  end.

Definition evicted_history (m : manager) (h : list message) : list message :=
  match h with
  | [] => []
  | first :: rest => first :: survivors m first rest
  end.

(** *** The transcript invariant of the specification *)

(** At most one message has the role [system], and it is the first one; the
    transcript is not empty. *)
Definition transcript_ok (h : list message) : Prop :=
  h ≠ [] ∧ ∀ (i : nat) (x : message), h !! i = Some x → role x = u "system" → i = 0%nat.

(** The transcript after [update_system_message_in_history]. *)
Definition synced_history (text : pystr) (h : list message) : list message :=
  match h with
  | first :: rest =>
      if decide (role first = u "system") then Message (role first) text :: rest
      else system_msg text :: h
  | [] => [system_msg text]
  end.

(** The world after [save_conversation_history] has written, or failed to
    write, the transcript [h]. *)
Definition saved (m : manager) (h : list message) (w : world) : world :=
  match open_write (fs w) (history_file m) (Json.dumps 4 (history_to_py h)) with
  | inr files => World files (stdout w)
  | inl e => log [ErrSaveIO e] w
  end.

(** The built-in entries of the persona table are those of the catalog. *)
Definition builtin_intact (m : manager) : Prop :=
  ∀ name text, (name, text) ∈ builtin_personas → system_messages m !! name = Some text.

(** *** Further readings of the state *)

Definition with_default_model (model : pystr) (m : manager) : manager :=
  Manager (base_url m) (history_file m) model (default_temperature m)
    (default_max_tokens m) (token_budget m) (system_messages m) (system_message m)
    (conversation_history m).

(** The attributes the constructor sets from its arguments. *)
Definition config (m : manager) :
    pystr * pystr * pystr * Temperature * Z * Z :=
  (base_url m, history_file m, default_model m, default_temperature m,
   default_max_tokens m, token_budget m).

(** The keys of the persona table, lines 49-55. *)
Definition persona_keys : list pystr :=
  [ u "normal_assistant"; u "sassy_assistant"; u "angry_assistant";
    u "thoughtful_assistant"; u "custom" ].

(** The first message of the transcript is the system message that holds
    the active system message. *)
Definition in_sync (m : manager) : Prop :=
  conversation_history m !! 0%nat = Some (system_msg (system_message m)).


End Manager.

(** The messages the chat page shows: the loop of [ChatBot.py], lines
    61-64, skips the messages whose role is [system]. *)
Definition visible (h : list message) : list message :=
  filter (λ x, role x ≠ u "system") h.

(** The characters of an ASCII text file: the line feed and the printable
    characters. *)
Definition is_ascii_text (c : N) : bool :=
  (c =? 10) || ((32 <=? c) && (c <=? 126)).

(** ** Concrete states *)

(** A manager as the constructor makes it, with the given temperature,
    budget and transcript, and worlds in which its history file is absent
    or holds [data].  The stub endpoints take any number as temperature. *)
Definition demo_path : pystr := u "Past_Conversations/h.json".

Definition demo_manager `{Cap : Capabilities} (temperature : Temperature)
    (budget : Z) (h : list message) : manager :=
  Manager (u "https://api.openai.com/v1") demo_path (u "gpt-3.5-turbo")
    temperature 150 budget initial_system_messages default_persona_text h.

Definition empty_world : world := World ∅ [].

(** The state the constructor makes when there is no history file. *)
Definition fresh_state : @manager failing_service * world :=
  (__init__ (Cap := failing_service) (u "https://api.openai.com/v1")
     (u "Past_Conversations") None (u "110326_212400") (u "gpt-3.5-turbo")
     70 150 4096 empty_world).2.

Definition world_with (entry : node) : world :=
  World (<[demo_path := entry]> (<[u "Past_Conversations" := Dir]> ∅)) [].

(** * Properties *)

(** ** The JSON codec *)

Ltac reassoc := repeat (rewrite <- ?app_assoc, <- ?app_comm_cons; cbn [app]).


Section JsonFacts.
Import Json.
















Lemma encode_message_eq m t :
  encode_message m ++ t =
    123 :: newline_indent 4 2 ++ 34 :: encode_chars (u "role") ++ 34 :: 58 :: 32
      :: 34 :: encode_chars (role m) ++ 34 :: 44 :: newline_indent 4 2
      ++ 34 :: encode_chars (u "content") ++ 34 :: 58 :: 32
      :: 34 :: encode_chars (content m) ++ 34 :: newline_indent 4 1 ++ 125 :: t.
Proof.
  unfold encode_message, message_to_py. cbn [iterencode].
  unfold encode_basestring_ascii. change (u ": ") with [58; 32]. by reassoc.
Qed.


Lemma dumps_history_cons m ms :
  dumps 4 (history_to_py (m :: ms)) =
    91 :: newline_indent 4 1 ++ encode_message m ++ encode_more ms
      ++ newline_indent 4 0 ++ [93].
Proof.
  unfold dumps, history_to_py. cbn [List.map iterencode].
  fold (encode_message m). do 4 f_equal.
  induction ms as [|x ms IH]; [done|].
  cbn [List.map]. rewrite IH. unfold encode_more, encode_message.
  cbn [flat_map]. by reassoc.
Qed.



Lemma array_items_step f s acc :
  array_items (S f) s acc =
    match scan_once f s with
    | Scanned v rest =>
        match skip_ws rest with
        | c :: rest' =>
            if c =? 93 then Scanned (PList (acc ++ [v])) rest'
            else if c =? 44 then array_items f (skip_ws rest') (acc ++ [v])
            else ScanError
        | [] => ScanError
        end
    | ScanError => ScanError
    | ScanFuel => ScanFuel
    end.
Proof. done. Qed.





(** *** The scanner consumes its input, so its fuel is enough *)

Lemma skip_ws_length s : (length (skip_ws s) ≤ length s)%nat.
Proof.
  induction s as [|c s IH]; [done|]. simpl. destruct (is_ws c); simpl; lia.
Qed.

Lemma cons_char_Some c o str r :
  cons_char c o = Some (str, r) → ∃ str', o = Some (str', r).
Proof. destruct o as [[s' r']|]; [|done]. intros [= <- <-]. by eexists. Qed.

Lemma scanstring_length n : ∀ s str r,
  (length s ≤ n)%nat → scanstring s = Some (str, r) → (length r < length s)%nat.
Proof.
  induction n as [|n IH]; intros s str r Hn; [destruct s; [done|simpl in Hn; lia]|].
  assert (∀ c s' str r, (length s' ≤ n)%nat →
            cons_char c (scanstring s') = Some (str, r) → (length r < S (length s'))%nat) as Hrec.
  { intros c s' str' r' Hs' H. apply cons_char_Some in H as [? H].
    apply IH in H; [lia|done]. }
  destruct s as [|c s1]; [done|]. cbn [scanstring].
  destruct (c =? 34); [intros [= <- <-]; simpl; lia|].
  destruct (c =? 92).
  - destruct s1 as [|esc s2]; [done|].
    destruct (esc =? 117).
    + destruct s2 as [|h1 [|h2 [|h3 [|h4 s3]]]]; try done.
      destruct (decode_uXXXX h1 h2 h3 h4) as [uni|]; [|done].
      simpl in Hn.
      destruct (is_high_surrogate uni).
      * destruct s3 as [|b [|v s3']].
        -- intros H. apply Hrec in H; simpl in *; lia.
        -- intros H. apply Hrec in H; simpl in *; lia.
        -- destruct ((b =? 92) && (v =? 117)).
           ++ destruct s3' as [|l1 [|l2 [|l3 [|l4 s4]]]]; try done.
              destruct (decode_uXXXX l1 l2 l3 l4) as [uni2|]; [|done].
              destruct (is_low_surrogate uni2); intros H; apply Hrec in H; simpl in *; lia.
           ++ intros H; apply Hrec in H; simpl in *; lia.
      * intros H; apply Hrec in H; simpl in *; lia.
    + destruct (backslash esc); [|done].
      intros H; apply Hrec in H; simpl in *; lia.
  - destruct (c <? 32); [done|].
    intros H; apply Hrec in H; simpl in *; lia.
Qed.

Lemma starts_with_length p : ∀ s r,
  starts_with p s = Some r → (length r + length p = length s)%nat.
Proof.
  induction p as [|a p IH]; intros s r; simpl.
  - intros [= <-]. lia.
  - destruct s as [|b s]; [done|]. destruct (a =? b); [|done].
    intros H. apply IH in H. simpl. lia.
Qed.

Lemma digits_length s : (length (digits s).2 ≤ length s)%nat.
Proof.
  induction s as [|c s IH]; [done|]. simpl.
  destruct (is_digit c); [|done]. destruct (digits s). simpl in *. lia.
Qed.

Lemma match_number_length s v r :
  match_number s = Some (v, r) → (length r < length s)%nat.
Proof.
  unfold match_number.
  set (ns := match s with
             | c :: s' => if c =? 45 then (true, s') else (false, s)
             | [] => (false, s)
             end).
  assert (length ns.2 ≤ length s)%nat as Hns.
  { subst ns. destruct s as [|c s']; [done|]. destruct (c =? 45); simpl; lia. }
  destruct ns as [neg s1]. simpl in Hns.
  set (integer := match s1 with
                  | c :: s2 => _
                  | [] => None
                  end).
  assert (∀ ds r1, integer = Some (ds, r1) → (length r1 < length s1)%nat) as Hint.
  { subst integer. intros ds r1. destruct s1 as [|c s2]; [done|].
    destruct (c =? 48); [intros [= <- <-]; simpl; lia|].
    destruct (is_digit c); [|done].
    pose proof (digits_length s2). destruct (digits s2) as [ds' r'].
    intros [= <- <-]. simpl in *. lia. }
  destruct integer as [[int_ds r1]|]; [|done].
  specialize (Hint _ _ eq_refl).
  set (fr := match r1 with
             | c :: r0 => _
             | [] => ([], r1)
             end).
  assert (length fr.2 ≤ length r1)%nat as Hfr.
  { subst fr. destruct r1 as [|c r0]; [done|].
    destruct (c =? 46); [|done].
    pose proof (digits_length r0). destruct (digits r0) as [[|d ds] r']; simpl in *; lia. }
  destruct fr as [frac r2]. simpl in Hfr.
  set (ex := match r2 with
             | c :: r0 => _
             | [] => ([], r2)
             end).
  assert (length ex.2 ≤ length r2)%nat as Hex.
  { subst ex. destruct r2 as [|c r0]; [done|].
    destruct ((c =? 101) || (c =? 69)); [|done].
    set (sg := match r0 with
               | d :: r' => _
               | [] => ([], r0)
               end).
    assert (length sg.2 ≤ length r0)%nat as Hsg.
    { subst sg. destruct r0 as [|d r']; [done|].
      destruct ((d =? 43) || (d =? 45)); simpl; lia. }
    destruct sg as [sg r']. simpl in Hsg.
    pose proof (digits_length r'). destruct (digits r') as [[|d ds] r'']; simpl in *; lia. }
  destruct ex as [exp r3]. simpl in Hex.
  destruct frac, exp; intros [= <- <-]; lia.
Qed.

Lemma scan_atom_length s v r :
  scan_atom s = Scanned v r → (length r < length s)%nat.
Proof.
  unfold scan_atom.
  repeat match goal with
  | |- context [starts_with ?p s] =>
      let H := fresh in
      destruct (starts_with p s) eqn:H;
        [apply starts_with_length in H; intros [= <- <-]; simpl in H; lia|]
  | |- context [match_number s] =>
      let H := fresh in
      destruct (match_number s) as [[? ?]|] eqn:H;
        [apply match_number_length in H; intros [= <- <-]; lia|]
  end.
  done.
Qed.

Lemma scanstring_shorter s str r :
  scanstring s = Some (str, r) → (length r < length s)%nat.
Proof. by apply (scanstring_length (length s)). Qed.

Lemma object_items_step f s acc :
  object_items (S f) s acc =
    match scanstring s with
    | None => ScanError
    | Some (key, r1) =>
        match skip_ws r1 with
        | c :: r2 =>
            if c =? 58 then
              match scan_once f (skip_ws r2) with
              | Scanned v r3 =>
                  match skip_ws r3 with
                  | d :: r4 =>
                      if d =? 125 then Scanned (PDict (dict_set key v acc)) r4
                      else if d =? 44 then
                        match skip_ws r4 with
                        | q :: r5 =>
                            if q =? 34 then object_items f r5 (dict_set key v acc)
                            else ScanError
                        | [] => ScanError
                        end
                      else ScanError
                  | [] => ScanError
                  end
              | ScanError => ScanError
              | ScanFuel => ScanFuel
              end
            else ScanError
        | [] => ScanError
        end
    end.
Proof. done. Qed.

Lemma scan_once_step f s :
  scan_once (S f) s =
    match s with
    | [] => ScanError
    | c :: s1 =>
        if c =? 34 then
          match scanstring s1 with
          | Some (str, rest) => Scanned (PStr str) rest
          | None => ScanError
          end
        else if c =? 123 then
          match skip_ws s1 with
          | d :: s2 =>
              if d =? 125 then Scanned (PDict []) s2
              else if d =? 34 then object_items f s2 []
              else ScanError
          | [] => ScanError
          end
        else if c =? 91 then
          match skip_ws s1 with
          | d :: s2 =>
              if d =? 93 then Scanned (PList []) s2
              else array_items f (d :: s2) []
          | [] => array_items f [] []
          end
        else scan_atom s
    end.
Proof. done. Qed.

Lemma scan_progress fuel :
  (∀ s v r, scan_once fuel s = Scanned v r → (length r < length s)%nat)
  ∧ (∀ s acc v r, array_items fuel s acc = Scanned v r → (length r < length s)%nat)
  ∧ (∀ s acc v r, object_items fuel s acc = Scanned v r → (length r < length s)%nat).
Proof.
  induction fuel as [|f (IHs & IHa & IHo)]; [done|]. repeat split_and.
  - intros s v r. rewrite scan_once_step.
    destruct s as [|c s1]; [done|].
    destruct (c =? 34).
    { destruct (scanstring s1) as [[str rest]|] eqn:H; [|done].
      apply scanstring_shorter in H. intros [= <- <-]. simpl. lia. }
    pose proof (skip_ws_length s1) as Hws.
    destruct (c =? 123).
    { destruct (skip_ws s1) as [|d s2]; [done|]. simpl in Hws.
      destruct (d =? 125); [intros [= <- <-]; simpl; lia|].
      destruct (d =? 34); [|done].
      intros H. apply IHo in H. simpl. lia. }
    destruct (c =? 91).
    { destruct (skip_ws s1) as [|d s2].
      - intros H. apply IHa in H. simpl in H. lia.
      - simpl in Hws. destruct (d =? 93); [intros [= <- <-]; simpl; lia|].
        intros H. apply IHa in H. simpl in *. lia. }
    apply scan_atom_length.
  - intros s acc v r. rewrite array_items_step.
    destruct (scan_once f s) as [v0 rest| |] eqn:H; [|done|done].
    apply IHs in H. pose proof (skip_ws_length rest) as Hws.
    destruct (skip_ws rest) as [|c rest']; [done|]. simpl in Hws.
    destruct (c =? 93); [intros [= <- <-]; lia|].
    destruct (c =? 44); [|done].
    intros H'. apply IHa in H'. pose proof (skip_ws_length rest'). lia.
  - intros s acc v r. rewrite object_items_step.
    destruct (scanstring s) as [[key r1]|] eqn:Hk; [|done].
    apply scanstring_shorter in Hk.
    pose proof (skip_ws_length r1) as Hw1.
    destruct (skip_ws r1) as [|c r2]; [done|]. simpl in Hw1.
    destruct (c =? 58); [|done].
    destruct (scan_once f (skip_ws r2)) as [v0 r3| |] eqn:H; [|done|done].
    apply IHs in H. pose proof (skip_ws_length r2) as Hw2.
    pose proof (skip_ws_length r3) as Hw3.
    destruct (skip_ws r3) as [|d r4]; [done|]. simpl in Hw3.
    destruct (d =? 125); [intros [= <- <-]; lia|].
    destruct (d =? 44); [|done].
    pose proof (skip_ws_length r4) as Hw4.
    destruct (skip_ws r4) as [|q r5]; [done|]. simpl in Hw4.
    destruct (q =? 34); [|done].
    intros H'. apply IHo in H'. lia.
Qed.

Lemma scan_atom_fuel s : scan_atom s ≠ ScanFuel.
Proof.
  unfold scan_atom.
  repeat match goal with
  | |- context [starts_with ?p s] => destruct (starts_with p s); [done|]
  | |- context [match_number s] => destruct (match_number s) as [[? ?]|]; [done|]
  end.
  done.
Qed.

Lemma scan_fuel_enough fuel :
  (∀ s, (2 * length s + 1 ≤ fuel)%nat → scan_once fuel s ≠ ScanFuel)
  ∧ (∀ s acc, (2 * length s + 2 ≤ fuel)%nat → array_items fuel s acc ≠ ScanFuel)
  ∧ (∀ s acc, (2 * length s + 2 ≤ fuel)%nat → object_items fuel s acc ≠ ScanFuel).
Proof.
  induction fuel as [|f (IHs & IHa & IHo)]; [repeat split_and; intros; lia|].
  repeat split_and.
  - intros s Hf. rewrite scan_once_step.
    destruct s as [|c s1]; [done|]. simpl in Hf.
    destruct (c =? 34); [by destruct (scanstring s1) as [[? ?]|]|].
    pose proof (skip_ws_length s1) as Hws.
    destruct (c =? 123).
    { destruct (skip_ws s1) as [|d s2]; [done|]. simpl in Hws.
      destruct (d =? 125); [done|]. destruct (d =? 34); [|done].
      apply IHo. lia. }
    destruct (c =? 91).
    { destruct (skip_ws s1) as [|d s2].
      - apply IHa. simpl. lia.
      - simpl in Hws. destruct (d =? 93); [done|]. apply IHa. simpl. lia. }
    apply scan_atom_fuel.
  - intros s acc Hf. rewrite array_items_step.
    destruct (scan_once f s) as [v0 rest| |] eqn:H; [|done|].
    + apply scan_progress in H. pose proof (skip_ws_length rest) as Hws.
      destruct (skip_ws rest) as [|c rest']; [done|]. simpl in Hws.
      destruct (c =? 93); [done|]. destruct (c =? 44); [|done].
      apply IHa. pose proof (skip_ws_length rest'). lia.
    + exfalso. revert H. apply IHs. lia.
  - intros s acc Hf. rewrite object_items_step.
    destruct (scanstring s) as [[key r1]|] eqn:Hk; [|done].
    apply scanstring_shorter in Hk.
    pose proof (skip_ws_length r1) as Hw1.
    destruct (skip_ws r1) as [|c r2]; [done|]. simpl in Hw1.
    destruct (c =? 58); [|done].
    pose proof (skip_ws_length r2) as Hw2.
    destruct (scan_once f (skip_ws r2)) as [v0 r3| |] eqn:H; [|done|].
    + apply scan_progress in H.
      pose proof (skip_ws_length r3) as Hw3.
      destruct (skip_ws r3) as [|d r4]; [done|]. simpl in Hw3.
      destruct (d =? 125); [done|]. destruct (d =? 44); [|done].
      pose proof (skip_ws_length r4) as Hw4.
      destruct (skip_ws r4) as [|q r5]; [done|]. simpl in Hw4.
      destruct (q =? 34); [|done].
      apply IHo. lia.
    + exfalso. revert H. apply IHs. lia.
Qed.

(** [loads] never reaches its recursion bound: it returns a value or
    raises [JSONDecodeError]. *)
Lemma loads_fuel s : loads s ≠ ScanFuel.
Proof.
  unfold loads.
  destruct (scan_once _ _) as [v rest| |] eqn:H.
  - by destruct (skip_ws rest).
  - done.
  - exfalso. revert H. apply scan_fuel_enough.
    pose proof (skip_ws_length s). lia.
Qed.

End JsonFacts.

(** ** The monad *)

Ltac unfold_M :=
  unfold mbind, M_mbind, M_bind, mret, M_mret, M_ret, attr, assign, print,
    raise, leave, lift_option, lift_sum in *.

Section Facts.
Context `{Cap : Capabilities}.

Lemma log_nil w : log [] w = w.
Proof. destruct w; unfold log; simpl. by rewrite app_nil_r. Qed.

Lemma log_log ds1 ds2 w : log ds2 (log ds1 w) = log (ds1 ++ ds2) w.
Proof. unfold log; simpl. by rewrite app_assoc. Qed.

Lemma with_history_same (m : manager) : with_history (conversation_history m) m = m.
Proof. by destruct m. Qed.

Lemma with_history_twice h1 h2 (m : manager) :
  with_history h2 (with_history h1 m) = with_history h2 m.
Proof. done. Qed.

(** ** The tokenizer *)

Lemma count_tokens_spec text (m : manager) w :
  ∃ ds, count_tokens text (m, w) =
    (match tokens_of_text m text with inr n => Return n | inl e => Raise e end,
     (m, log ds w)).
Proof.
  unfold count_tokens, tokens_of_text, try_except. unfold_M. simpl.
  destruct (encoding_for_model (default_model m)) as [enc|]; simpl.
  - exists []. rewrite log_nil. by destruct (encode enc text).
  - exists [WarnModelNotFound (default_model m)].
    destruct (encoding_for_model (u "gpt-3.5-turbo")) as [enc|]; simpl; [|done].
    by destruct (encode enc text).
Qed.

Lemma sum_tokens_spec h : ∀ acc (m : manager) w,
  ∃ ds, (match total_of m h with
         | Some t => sum_tokens h acc (m, w) = (Return (acc + t)%Z, (m, log ds w))
         | None => ∃ e, sum_tokens h acc (m, w) = (Raise e, (m, log ds w))
         end).
Proof.
  induction h as [|x h IH]; intros acc m w; simpl.
  - exists []. rewrite log_nil. unfold_M. by rewrite Z.add_0_r.
  - destruct (count_tokens_spec (content x) m w) as [ds1 H1].
    unfold mbind, M_mbind, M_bind. rewrite H1.
    destruct (tokens_of_text m (content x)) as [e|n].
    + exists ds1. by exists e.
    + destruct (IH (acc + n)%Z m (log ds1 w)) as [ds2 H2].
      exists (ds1 ++ ds2). rewrite <- log_log.
      destruct (total_of m h) as [t|].
      * rewrite H2. by rewrite Z.add_assoc.
      * done.
Qed.

Lemma total_tokens_used_spec (m : manager) w :
  ∃ ds, total_tokens_used (m, w) =
    (Return (total_of m (conversation_history m)), (m, log ds w)).
Proof.
  unfold total_tokens_used, try_except.
  destruct (sum_tokens_spec (conversation_history m) 0%Z m w) as [ds H].
  unfold mbind, M_mbind, M_bind, attr. simpl.
  destruct (total_of m (conversation_history m)) as [t|].
  - rewrite H. exists ds. done.
  - destruct H as [e H]. rewrite H. simpl.
    exists (ds ++ [ErrTotalTokens e]). unfold_M. unfold log. simpl. by rewrite app_assoc.
Qed.

(** ** The budget loop *)

Lemma total_of_with_history h' (m : manager) h :
  total_of (with_history h' m) h = total_of m h.
Proof. induction h as [|x h IH]; simpl; [done|]. by rewrite IH. Qed.

Lemma over_budget_with_history h' (m : manager) h :
  over_budget (with_history h' m) h = over_budget m h.
Proof. unfold over_budget. by rewrite total_of_with_history. Qed.

Lemma survivors_with_history h' (m : manager) first rest :
  survivors (with_history h' m) first rest = survivors m first rest.
Proof.
  induction rest as [|y rest IH]; simpl; [done|].
  by rewrite over_budget_with_history, IH.
Qed.

Lemma evicted_history_with_history h' (m : manager) h :
  evicted_history (with_history h' m) h = evicted_history m h.
Proof. destruct h; simpl; [done|]. by rewrite survivors_with_history. Qed.

Lemma total_of_cons (m : manager) x h :
  is_Some (total_of m (x :: h)) → is_Some (total_of m h).
Proof.
  simpl. destruct (tokens_of_text m (content x)), (total_of m h);
    intros [? ?]; by eauto.
Qed.

Lemma total_of_skip (m : manager) x y h :
  is_Some (total_of m (x :: y :: h)) → is_Some (total_of m (x :: h)).
Proof.
  intros H. pose proof (total_of_cons _ _ _ (total_of_cons _ _ _ H)) as [t Ht].
  destruct H as [t' H]. simpl in *.
  destruct (tokens_of_text m (content x)); [done|].
  rewrite Ht. by eauto.
Qed.

Lemma evicted_history_not_over (m : manager) h :
  over_budget m h = false → evicted_history m h = h.
Proof. destruct h as [|x [|y rest]]; simpl; try done. by intros ->. Qed.

(** With more fuel than messages, the loop ends: it raises [TypeError] where
    the total is [None], and otherwise returns with the transcript
    [evicted_history]. *)
Lemma budget_loop_spec fuel : ∀ (m : manager) w,
  (length (conversation_history m) < fuel)%nat →
  ∃ ds, budget_loop fuel (m, w) =
    (match total_of m (conversation_history m) with
     | Some _ => Return tt
     | None => Raise TypeError
     end,
     (with_history (evicted_history m (conversation_history m)) m, log ds w)).
Proof.
  induction fuel as [|f IH]; intros m w Hlen; [lia|].
  simpl. destruct (total_tokens_used_spec m w) as [ds1 H1].
  unfold mbind, M_mbind, M_bind at 1. rewrite H1.
  unfold mbind, M_mbind, M_bind, attr; simpl.
  destruct (total_of m (conversation_history m)) as [t|] eqn:Ht; simpl.
  - destruct (token_budget m <? t)%Z eqn:Hover; unfold_M; simpl.
    + destruct (conversation_history m) as [|x [|y rest]] eqn:Hh; simpl.
      * exists ds1. by rewrite <- Hh, with_history_same.
      * exists ds1. by rewrite <- Hh, with_history_same.
      * unfold over_budget. rewrite Ht, Hover.
        destruct (IH (with_history (x :: rest) m) (log ds1 w)) as [ds2 H2].
        { simpl in *. lia. }
        change (conversation_history (with_history (x :: rest) m))
          with (x :: rest) in H2.
        rewrite total_of_with_history, evicted_history_with_history, log_log in H2.
        destruct (total_of_skip m x y rest) as [t' Ht']; [by rewrite Ht|].
        rewrite Ht' in H2. rewrite H2. by exists (ds1 ++ ds2).
    + exists ds1. rewrite evicted_history_not_over, with_history_same; [done|].
      unfold over_budget. by rewrite Ht.
  - exists ds1. rewrite evicted_history_not_over, with_history_same; [done|].
    unfold over_budget. by rewrite Ht.
Qed.

(** The bounded loop computes the result of the [while] statement, which
    has no other result: the statement terminates. *)
Lemma budget_loop_while fuel : ∀ (m : manager) w,
  (length (conversation_history m) < fuel)%nat →
  budget_while (m, w) (budget_loop fuel (m, w)).
Proof.
  induction fuel as [|f IH]; intros m w Hlen; [lia|].
  destruct (total_tokens_used_spec m w) as [ds1 H1].
  simpl. unfold mbind, M_mbind, M_bind at 1. rewrite H1.
  unfold mbind, M_mbind, M_bind, attr; simpl.
  destruct (total_of m (conversation_history m)) as [t|]; simpl.
  - destruct (Z.ltb_spec (token_budget m) t) as [Hover|Hover]; unfold_M; simpl.
    + destruct (Nat.leb_spec (length (conversation_history m)) 1) as [Hl|Hl].
      * by eapply while_break.
      * eapply while_pop; [done..|]. apply IH.
        simpl. rewrite length_delete; [lia|].
        apply lookup_lt_is_Some. lia.
    + by eapply while_within.
  - by eapply while_none.
Qed.

Lemma budget_while_deterministic σ r1 r2 :
  budget_while σ r1 → budget_while σ r2 → r1 = r2.
Proof.
  intros Hfirst. revert r2.
  induction Hfirst as [σ σ1 e Ht|σ σ1 b Ht|σ σ1 Ht|σ σ1 t Ht Hle
                      |σ σ1 t Ht Hlt Hlen|σ σ1 t r Ht Hlt Hlen Hrest IH];
    intros r2 Hsecond;
    inversion Hsecond as [? σ2 ? Ht2|? σ2 ? Ht2|? σ2 Ht2|? σ2 t2 Ht2 Hle2
                         |? σ2 t2 Ht2 Hlt2 Hlen2|? σ2 t2 ? Ht2 Hlt2 Hlen2 Hrest2];
    subst; rewrite Ht in Ht2; try discriminate;
    injection Ht2 as ?; subst; try done; try lia.
  by apply IH.
Qed.

Lemma enforce_token_budget_spec (m : manager) w :
  ∃ ds, enforce_token_budget (m, w) =
    (Return tt, (with_history (evicted_history m (conversation_history m)) m, log ds w)).
Proof.
  unfold enforce_token_budget, try_except.
  unfold mbind, M_mbind, M_bind, attr. cbn -[budget_loop].
  destruct (budget_loop_spec (S (length (conversation_history m))) m w) as [ds H];
    [lia|].
  rewrite H. destruct (total_of m (conversation_history m)); simpl.
  - by exists ds.
  - exists (ds ++ [ErrEnforceBudget TypeError]). unfold_M. simpl.
    by rewrite <- log_log.
Qed.

Lemma over_budget_spec (m : manager) h w :
  over_budget m h = true ↔
  ∃ t, (total_tokens_used (with_history h m, w)).1 = Return (Some t)
       ∧ (token_budget m < t)%Z.
Proof.
  destruct (total_tokens_used_spec (with_history h m) w) as [ds ->].
  simpl. rewrite total_of_with_history. unfold over_budget.
  destruct (total_of m h) as [t|].
  - rewrite Z.ltb_lt. split; [by eauto|]. by intros (? & [= <-] & ?).
  - split; [done|]. by intros (? & [=] & ?).
Qed.

Lemma survivors_drop (m : manager) first rest :
  ∃ k, survivors m first rest = drop k rest
    ∧ (∀ j, (j < k)%nat →
         over_budget m (first :: drop j rest) = true
         ∧ (1 < length (first :: drop j rest))%nat)
    ∧ (over_budget m (first :: drop k rest) = false ∨ drop k rest = []).
Proof.
  induction rest as [|y rest IH]; simpl.
  - exists 0%nat. split; [done|]. split; [lia|]. by right.
  - destruct (over_budget m (first :: y :: rest)) eqn:Hover.
    + destruct IH as (k & Hk & Hbefore & Hend). exists (S k). simpl.
      split; [done|]. split; [|done].
      intros [|j] Hj; simpl.
      * split; [done|lia].
      * apply Hbefore. lia.
    + exists 0%nat. simpl. split; [done|]. split; [lia|]. by left.
Qed.

Lemma survivors_end (m : manager) first rest :
  survivors m first rest = []
  ∨ over_budget m (first :: survivors m first rest) = false.
Proof.
  destruct (survivors_drop m first rest) as (k & -> & _ & [H|H]); by eauto.
Qed.

Lemma evicted_history_idem (m : manager) h :
  evicted_history m (evicted_history m h) = evicted_history m h.
Proof.
  destruct h as [|first rest]; simpl; [done|].
  destruct (survivors_end m first rest) as [->|H]; [done|].
  destruct (survivors m first rest) as [|y r]; simpl; [done|].
  by rewrite H.
Qed.

Lemma total_of_survivors (m : manager) first rest :
  is_Some (total_of m (first :: rest)) →
  is_Some (total_of m (first :: survivors m first rest)).
Proof.
  induction rest as [|y rest IH]; [done|]. intros H.
  change (survivors m first (y :: rest)) with
    (if over_budget m (first :: y :: rest) then survivors m first rest
     else y :: rest).
  destruct (over_budget m (first :: y :: rest)); [|done].
  apply IH. by eapply total_of_skip.
Qed.

Lemma iter_delete_1 {A} (first : A) rest k :
  Nat.iter k (delete 1%nat) (first :: rest) = first :: drop k rest.
Proof.
  revert rest. induction k as [|k IH]; intros rest; [done|].
  rewrite Nat.iter_succ_r. destruct rest as [|y rest]; simpl.
  - clear IH. induction k as [|k IHk]; [done|]. simpl. by rewrite IHk.
  - apply IH.
Qed.

Lemma head_iter_delete_1 {A} (h : list A) k :
  head (Nat.iter k (delete 1%nat) h) = head h.
Proof.
  destruct h as [|first rest]; [|by rewrite iter_delete_1].
  induction k as [|k IH]; [done|]. simpl.
  by destruct (Nat.iter k (delete 1%nat) []) as [|? [|? ?]].
Qed.

(** ** C3, C5: the token budget *)

(** C3.  Take a transcript whose total, as [total_tokens_used] returns it,
    exceeds the budget, in the domain of the specification (the transcript
    is not empty, or the budget is not negative; the budget may be 0).
    Then [enforce_token_budget] returns; in the state it leaves, the total
    is at most the budget or exactly one message remains; and a further
    call in that state, in any world, returns and leaves the manager, so
    the transcript, as it is. *)
Theorem enforce_token_budget_converges (m : manager) (w : world) (t : Z) :
  (total_tokens_used (m, w)).1 = Return (Some t) →
  (token_budget m < t)%Z →
  (conversation_history m ≠ [] ∨ (0 ≤ token_budget m)%Z) →
  ∃ m' w',
    enforce_token_budget (m, w) = (Return tt, (m', w'))
    ∧ (∃ t', (total_tokens_used (m', w')).1 = Return (Some t')
             ∧ ((t' ≤ token_budget m')%Z ∨ length (conversation_history m') = 1%nat))
    ∧ ∀ w1, ∃ w2, enforce_token_budget (m', w1) = (Return tt, (m', w2)).
Proof.
  intros Htot Hover Hdom.
  destruct (total_tokens_used_spec m w) as [ds0 H0]. rewrite H0 in Htot.
  simpl in Htot. injection Htot as Htot.
  destruct (enforce_token_budget_spec m w) as [ds ->].
  set (h' := evicted_history m (conversation_history m)).
  exists (with_history h' m), (log ds w). split; [done|]. split.
  - destruct (total_tokens_used_spec (with_history h' m) (log ds w)) as [ds1 ->].
    simpl. rewrite total_of_with_history. subst h'.
    destruct (conversation_history m) as [|first rest] eqn:Hh.
    { simpl in Htot. injection Htot as <-. destruct Hdom; [done|lia]. }
    simpl evicted_history.
    destruct (total_of_survivors m first rest) as [t' Ht']; [by rewrite Htot|].
    exists t'. split; [by rewrite Ht'|].
    destruct (survivors_end m first rest) as [->|Hend]; [by right|].
    left. unfold over_budget in Hend. rewrite Ht' in Hend.
    by apply Z.ltb_ge in Hend.
  - intros w1. destruct (enforce_token_budget_spec (with_history h' m) w1) as [ds1 ->].
    exists (log ds1 w1). simpl. subst h'.
    by rewrite evicted_history_with_history, evicted_history_idem.
Qed.

(** C5.  [enforce_token_budget] returns after some number [k] of
    evictions, each of which removes the message at index 1: the transcript
    it leaves is the first message followed by all but the [k] oldest of
    the others.  Each eviction happens on a transcript that is over budget
    and has more than one message, and the loop stops at the first
    transcript that is not.  No number of such removals changes the first
    message. *)
Theorem enforce_token_budget_evicts_oldest_first (m : manager) (w : world) :
  ∃ k m' w',
    enforce_token_budget (m, w) = (Return tt, (m', w'))
    ∧ m' = with_history (Nat.iter k (delete 1%nat) (conversation_history m)) m
    ∧ (∀ first rest, conversation_history m = first :: rest →
         conversation_history m' = first :: drop k rest)
    ∧ (∀ j, (j < k)%nat →
         over_budget m (Nat.iter j (delete 1%nat) (conversation_history m)) = true
         ∧ (1 < length (Nat.iter j (delete 1%nat) (conversation_history m)))%nat)
    ∧ (over_budget m (conversation_history m') = false
       ∨ (length (conversation_history m') ≤ 1)%nat)
    ∧ ∀ n, head (Nat.iter n (delete 1%nat) (conversation_history m))
           = head (conversation_history m).
Proof.
  destruct (enforce_token_budget_spec m w) as [ds ->].
  destruct (conversation_history m) as [|first rest] eqn:Hh.
  - exists 0%nat, m, (log ds w). simpl.
    split; [by rewrite <- Hh, with_history_same|].
    split; [by rewrite <- Hh, with_history_same|].
    split; [done|]. split; [lia|]. split; [right; rewrite Hh; simpl; lia|].
    intros n. apply (head_iter_delete_1 [] n).
  - destruct (survivors_drop m first rest) as (k & Hk & Hbefore & Hend).
    exists k, (with_history (first :: drop k rest) m), (log ds w). simpl.
    rewrite Hk, iter_delete_1.
    split; [done|]. split; [done|].
    split; [by intros ? ? [= <- <-]|].
    split; [intros j Hj; rewrite iter_delete_1; by apply Hbefore|].
    split.
    + destruct Hend as [H| ->]; [by left|right; simpl; lia].
    + intros n. by rewrite iter_delete_1.
Qed.

(** ** The system message and the personas *)

Lemma update_system_message_in_history_spec (m : manager) w :
  update_system_message_in_history (m, w) =
    (Return tt,
     (with_history (synced_history (system_message m) (conversation_history m)) m, w)).
Proof.
  unfold update_system_message_in_history, try_except, synced_history.
  unfold_M. simpl.
  destruct (conversation_history m) as [|first rest]; [done|].
  by destruct (decide (role first = u "system")).
Qed.

Lemma synced_history_head text h :
  synced_history text h !! 0%nat = Some (system_msg text).
Proof.
  unfold synced_history. destruct h as [|[r c] rest]; [done|]. simpl.
  destruct (decide (r = u "system")) as [->|]; done.
Qed.

Lemma set_persona_known persona text (m : manager) w :
  system_messages m !! persona = Some text →
  set_persona persona (m, w) =
    (Return tt,
     (with_history (synced_history text (conversation_history m))
        (with_system_message text m), w)).
Proof.
  intros H. unfold set_persona. unfold_M. simpl. rewrite H.
  by rewrite update_system_message_in_history_spec.
Qed.

Lemma set_persona_missing persona (m : manager) w :
  system_messages m !! persona = None →
  set_persona persona (m, w) = (Raise ValueError, (m, w)).
Proof. intros H. unfold set_persona. unfold_M. simpl. by rewrite H. Qed.

(** C9.  For a name that is not a key of the persona table, [set_persona]
    raises [ValueError] (the specification's UnknownPersonaError) and
    leaves the manager, so the active system message and the transcript,
    and the world as they were. *)
Theorem set_persona_unknown (persona : pystr) (m : manager) (w : world) :
  system_messages m !! persona = None →
  set_persona persona (m, w) = (Raise ValueError, (m, w))
  ∧ system_message (set_persona persona (m, w)).2.1 = system_message m
  ∧ conversation_history (set_persona persona (m, w)).2.1 = conversation_history m.
Proof. intros H. by rewrite set_persona_missing. Qed.

(** ** The custom persona *)

Lemma set_custom_system_message_nonempty text (m : manager) w :
  text ≠ [] →
  set_custom_system_message text (m, w) =
    (Return tt,
     (with_history (synced_history text (conversation_history m))
        (with_system_message text
           (with_system_messages (<[u "custom" := text]> (system_messages m)) m)),
      w)).
Proof.
  intros H. unfold set_custom_system_message.
  destruct (decide (text = [])); [done|].
  unfold mbind, M_mbind, M_bind, attr, assign. simpl.
  rewrite (set_persona_known (u "custom") text); [done|].
  simpl. apply lookup_insert_eq.
Qed.

(** C2, as the code has it.  For the empty string
    [set_custom_system_message] raises [ValueError] (the specification's
    InvalidArgumentError) and leaves the manager and the world as they
    were; an error is raised for no other string. *)
Theorem set_custom_system_message_empty (text : pystr) (m : manager) (w : world) :
  set_custom_system_message [] (m, w) = (Raise ValueError, (m, w))
  ∧ ((set_custom_system_message text (m, w)).1 = Raise ValueError ↔ text = []).
Proof.
  split; [done|]. split.
  - intros H. destruct (decide (text = [])) as [|Hne]; [done|].
    by rewrite set_custom_system_message_nonempty in H.
  - by intros ->.
Qed.

(** ** Saving and resetting *)

Lemma open_write_error files path data e :
  open_write files path data = inl e → isinstance e COSError = true.
Proof.
  unfold open_write. destruct (files !! path) as [[|r wr d]|]; try done.
  - by intros [= <-].
  - destruct wr; [done|]. by intros [= <-].
Qed.

Lemma open_write_lookup files path data files' :
  open_write files path data = inr files' →
  ∃ r wr, files' !! path = Some (File r wr data).
Proof.
  unfold open_write. destruct (files !! path) as [[|r wr d]|]; try done.
  - destruct wr; [|done]. intros [= <-]. exists r, true. apply lookup_insert_eq.
  - intros [= <-]. exists true, true. apply lookup_insert_eq.
Qed.

Lemma save_conversation_history_spec (m : manager) w :
  save_conversation_history (m, w) =
    (Return tt, (m, saved m (conversation_history m) w)).
Proof.
  unfold save_conversation_history, try_except, saved, write_file.
  unfold mbind, M_mbind, M_bind, attr. simpl.
  destruct (open_write _ _ _) as [e|files] eqn:Hw; [|done].
  pose proof (open_write_error _ _ _ _ Hw) as He. by destruct e.
Qed.

Lemma reset_conversation_history_eq (m : manager) w :
  let h := [system_msg (system_message m)] in
  reset_conversation_history (m, w) =
    (Return tt, (with_history h m, saved m h w)).
Proof.
  unfold reset_conversation_history, fresh_history, try_except.
  unfold mbind, M_mbind, M_bind, attr, assign. simpl.
  by rewrite save_conversation_history_spec.
Qed.

(** C10.  Whatever the transcript was, [reset_conversation_history]
    returns with the transcript made of the single message
    [{role: system, content: system_message}], the other attributes
    untouched, in the world in which that transcript has been written to
    the history file: the file holds its JSON text, or, where the file
    cannot be written, the files are as before and the failure is
    printed. *)
Theorem reset_conversation_history_spec (m : manager) (w : world) :
  let h := [Message (u "system") (system_message m)] in
  ∃ w', reset_conversation_history (m, w) = (Return tt, (with_history h m, w'))
    ∧ conversation_history (with_history h m) = h
    ∧ match open_write (fs w) (history_file m) (Json.dumps 4 (history_to_py h)) with
      | inr files =>
          w' = World files (stdout w)
          ∧ ∃ r wr, fs w' !! history_file m
                    = Some (File r wr (Json.dumps 4 (history_to_py h)))
      | inl e => w' = World (fs w) (stdout w ++ [ErrSaveIO e])
      end.
Proof.
  intros h. exists (saved m h w).
  split; [apply reset_conversation_history_eq|split; [done|]].
  unfold saved. simpl.
  destruct (open_write _ _ _) as [e|files] eqn:Hw; [done|].
  split; [done|]. simpl. by eapply open_write_lookup.
Qed.

(** ** The request cycle *)

Lemma chat_completion_spec prompt t n mo (m : manager) w :
  let h2 := evicted_history m (conversation_history m ++ [user_msg prompt]) in
  ∃ ds, chat_completion prompt t n mo (m, w) =
    match chat_completions_create (default (default_model m) mo) h2
            (default (default_temperature m) t) (default (default_max_tokens m) n) with
    | inl e => (Return None, (with_history h2 m, log (ds ++ [ErrGenerating e]) w))
    | inr [] => (Raise IndexError, (with_history h2 m, log ds w))
    | inr (c :: _) =>
        (Return (Some c),
         (with_history (h2 ++ [assistant_msg c]) m,
          saved m (h2 ++ [assistant_msg c]) (log ds w)))
    end.
Proof.
  intros h2. unfold chat_completion.
  set (h1 := conversation_history m ++ [user_msg prompt]) in *.
  destruct (enforce_token_budget_spec (with_history h1 m) w) as [ds He].
  change (conversation_history (with_history h1 m)) with h1 in He.
  rewrite evicted_history_with_history, with_history_twice in He. fold h2 in He.
  exists ds.
  unfold mbind, M_mbind, M_bind, attr, assign, try_except. cbn -[enforce_token_budget].
  fold h1. rewrite He. cbn -[enforce_token_budget].
  destruct (chat_completions_create _ _ _ _) as [e|[|c choices]]; simpl.
  - destruct e; by rewrite <- log_log.
  - done.
  - by rewrite save_conversation_history_spec.
Qed.




(** ** C6: the transcript invariant *)

Lemma role_user_not_system : u "user" ≠ u "system".
Proof. by vm_compute. Qed.

Lemma role_assistant_not_system : u "assistant" ≠ u "system".
Proof. by vm_compute. Qed.

Lemma transcript_ok_single text : transcript_ok [system_msg text].
Proof.
  split; [done|]. intros [|i] x; [done|]. by destruct i.
Qed.

Lemma transcript_ok_snoc h x :
  transcript_ok h → role x ≠ u "system" → transcript_ok (h ++ [x]).
Proof.
  intros [Hne Hsys] Hx. split; [by destruct h|].
  intros i y Hi Hy. destruct (decide (i < length h)%nat) as [Hlt|Hge].
  - rewrite lookup_app_l in Hi by done. by eapply Hsys.
  - rewrite lookup_app_r in Hi by lia.
    destruct (i - length h)%nat; [|by destruct n].
    simpl in Hi. by injection Hi as <-.
Qed.

Lemma transcript_ok_evicted (m : manager) h :
  transcript_ok h → transcript_ok (evicted_history m h).
Proof.
  intros [Hne Hsys]. destruct h as [|first rest]; [done|]. simpl.
  destruct (survivors_drop m first rest) as (k & -> & _).
  split; [done|]. intros [|i] x Hi Hx; [done|]. simpl in Hi.
  rewrite lookup_drop in Hi. by specialize (Hsys (S (k + i)) x Hi Hx).
Qed.

Lemma transcript_ok_synced text h :
  transcript_ok h → transcript_ok (synced_history text h).
Proof.
  intros [Hne Hsys]. unfold synced_history.
  destruct h as [|first rest]; [done|].
  destruct (decide (role first = u "system")) as [Hfirst|Hfirst].
  - split; [done|]. intros [|i] x Hi Hx; [done|].
    by specialize (Hsys (S i) x Hi Hx).
  - split; [done|]. intros [|i] x Hi Hx; [done|]. simpl in Hi.
    specialize (Hsys i x Hi Hx). subst i. simpl in Hi. by injection Hi as <-.
Qed.

(** C6.  From a state whose transcript is not empty and has at most one
    [system] message, at index 0, each public operation, whatever it
    returns or raises, leaves a transcript of the same kind. *)
Theorem operations_preserve_transcript_ok (m : manager) (w : world) :
  transcript_ok (conversation_history m) →
  (∀ persona,
     transcript_ok (conversation_history (set_persona persona (m, w)).2.1))
  ∧ (∀ text,
     transcript_ok (conversation_history (set_custom_system_message text (m, w)).2.1))
  ∧ transcript_ok (conversation_history (update_system_message_in_history (m, w)).2.1)
  ∧ transcript_ok (conversation_history (enforce_token_budget (m, w)).2.1)
  ∧ (∀ prompt t n mo,
     transcript_ok (conversation_history (chat_completion prompt t n mo (m, w)).2.1))
  ∧ transcript_ok (conversation_history (reset_conversation_history (m, w)).2.1).
Proof.
  intros Hok. repeat split_and.
  - intros persona. destruct (system_messages m !! persona) as [text|] eqn:H.
    + rewrite (set_persona_known _ _ _ _ H). simpl. by apply transcript_ok_synced.
    + by rewrite (set_persona_missing _ _ _ H).
  - intros text. destruct (decide (text = [])) as [->|H]; [done|].
    rewrite set_custom_system_message_nonempty by done. simpl.
    by apply transcript_ok_synced.
  - rewrite update_system_message_in_history_spec. simpl.
    by apply transcript_ok_synced.
  - destruct (enforce_token_budget_spec m w) as [ds ->]. simpl.
    by apply transcript_ok_evicted.
  - intros prompt t n mo.
    destruct (chat_completion_spec prompt t n mo m w) as [ds ->].
    assert (transcript_ok
              (evicted_history m (conversation_history m ++ [user_msg prompt]))).
    { apply transcript_ok_evicted, transcript_ok_snoc; [done|].
      apply role_user_not_system. }
    destruct (chat_completions_create _ _ _ _) as [e|[|c choices]]; simpl; try done.
    apply transcript_ok_snoc; [done|]. apply role_assistant_not_system.
  - rewrite reset_conversation_history_eq. simpl. apply transcript_ok_single.
Qed.

(** ** Loading *)


Lemma load_unreadable (m : manager) w e :
  open_read (fs w) (history_file m) = inl e → e ≠ FileNotFoundError →
  load_conversation_history (m, w) = (Raise TypeError, (m, w)).
Proof.
  intros H He. unfold load_conversation_history, try_except, read_file.
  unfold mbind, M_mbind, M_bind, attr. simpl. rewrite H. simpl.
  by destruct e.
Qed.

Lemma load_not_json (m : manager) w data :
  open_read (fs w) (history_file m) = inr data →
  Json.loads data = Json.ScanError →
  load_conversation_history (m, w) = (Raise TypeError, (m, w)).
Proof.
  intros H Hd. unfold load_conversation_history, try_except, read_file, json_load.
  unfold mbind, M_mbind, M_bind, attr. simpl. rewrite H, Hd. done.
Qed.



(** ** The persona table *)

Lemma initial_builtin_intact name text :
  (name, text) ∈ builtin_personas → initial_system_messages !! name = Some text.
Proof.
  unfold builtin_personas. rewrite !elem_of_cons, elem_of_nil.
  intros [H|[H|[H|[H|[]]]]]; injection H as -> ->; by vm_compute.
Qed.

Lemma builtin_not_custom name text :
  (name, text) ∈ builtin_personas → name ≠ u "custom".
Proof.
  unfold builtin_personas. rewrite !elem_of_cons, elem_of_nil.
  intros [H|[H|[H|[H|[]]]]]; injection H as -> ->; by vm_compute.
Qed.

(** The constructor leaves the catalog in the table, and no method takes
    it out. *)
Lemma builtin_intact_preserved (m : manager) w :
  builtin_intact m →
  (∀ persona, builtin_intact (set_persona persona (m, w)).2.1)
  ∧ (∀ text, builtin_intact (set_custom_system_message text (m, w)).2.1)
  ∧ builtin_intact (enforce_token_budget (m, w)).2.1
  ∧ (∀ prompt t n mo, builtin_intact (chat_completion prompt t n mo (m, w)).2.1)
  ∧ builtin_intact (reset_conversation_history (m, w)).2.1.
Proof.
  intros Hm. repeat split_and.
  - intros persona. destruct (system_messages m !! persona) as [text|] eqn:H.
    + by rewrite (set_persona_known _ _ _ _ H).
    + by rewrite (set_persona_missing _ _ _ H).
  - intros text. destruct (decide (text = [])) as [->|H]; [done|].
    rewrite set_custom_system_message_nonempty by done.
    intros name txt Hin. simpl. rewrite lookup_insert_ne; [by apply Hm|].
    intros Heq. by eapply builtin_not_custom.
  - by destruct (enforce_token_budget_spec m w) as [ds ->].
  - intros prompt t n mo.
    destruct (chat_completion_spec prompt t n mo m w) as [ds ->].
    by destruct (chat_completions_create _ _ _ _) as [e|[|c choices]].
  - by rewrite reset_conversation_history_eq.
Qed.

Lemma load_manager (m : manager) w :
  ∃ h, (load_conversation_history (m, w)).2.1 = with_history h m.
Proof.
  unfold load_conversation_history, try_except, read_file, json_load, assign_history.
  unfold mbind, M_mbind, M_bind, attr. simpl.
  destruct (open_read _ _) as [e|data]; simpl.
  - destruct e; simpl; try (by exists (conversation_history m); rewrite with_history_same).
    by eexists.
  - destruct (Json.loads data) as [v r| |]; simpl;
      try (by exists (conversation_history m); rewrite with_history_same).
    destruct (py_to_history v); simpl; [by eexists|].
    by exists (conversation_history m); rewrite with_history_same.
Qed.

(** [json_load] returns a value or raises: it never leaves the model. *)
Lemma json_load_total text (σ : manager * world) :
  (∃ v, json_load text σ = (Return v, σ))
  ∨ json_load text σ = (Raise JSONDecodeError, σ).
Proof.
  unfold json_load. pose proof (loads_fuel text).
  destruct (Json.loads text); [left; by eexists|by right|done].
Qed.

Lemma run_builtin_intact c (m : manager) w :
  builtin_intact m → builtin_intact (run c (m, w)).2.1.
Proof.
  intros Hm. pose proof (builtin_intact_preserved m w Hm) as (Hp & Hc & He & Hch & Hr).
  destruct c; simpl; unfold void, mbind, M_mbind, M_bind.
  - destruct (count_tokens_spec text m w) as [ds ->].
    by destruct (tokens_of_text m text).
  - by destruct (total_tokens_used_spec m w) as [ds ->].
  - done.
  - apply Hp.
  - apply Hc.
  - by rewrite update_system_message_in_history_spec.
  - specialize (Hch prompt temperature max_tokens model).
    by destruct (chat_completion _ _ _ _ _) as [[?|?|?] ?].
  - by destruct (load_manager m w) as [h ->].
  - by rewrite save_conversation_history_spec.
  - done.
Qed.

(** Every state of a manager has the catalog in its table. *)
Lemma reachable_builtin_intact σ : reachable σ → builtin_intact σ.1.
Proof.
  induction 1 as [url folder file ts model temp n budget w σ Hinit
                 |c [m w] r σ' _ IH Hrun _|m w w' _ IH].
  - unfold __init__ in Hinit.
    match type of Hinit with
    | load_conversation_history (?m0, ?w0) = _ =>
        destruct (load_manager m0 w0) as [h Hh]; rewrite Hinit in Hh
    end.
    simpl in Hh. rewrite Hh. intros name text Hin. simpl.
    by apply initial_builtin_intact.
  - pose proof (run_builtin_intact c m w IH) as H. by rewrite Hrun in H.
  - done.
Qed.

(** C8.  In every state of a manager, and for a name and text of the
    built-in catalog, [set_persona] returns; after it the first entry of
    the transcript has the role [system] and the catalog's text as content,
    and the active system message is that text. *)
Theorem set_persona_builtin (name text : pystr) (m : manager) (w : world) :
  reachable (m, w) →
  (name, text) ∈ builtin_personas →
  ∃ m', set_persona name (m, w) = (Return tt, (m', w))
        ∧ conversation_history m' !! 0%nat = Some (Message (u "system") text)
        ∧ system_message m' = text.
Proof.
  intros Hreach Hin. apply reachable_builtin_intact in Hreach.
  eexists. split; [by apply set_persona_known, Hreach|].
  split; [apply synced_history_head|done].
Qed.

End Facts.

(** * The properties at concrete states *)

(** C1.  The constructor, run on a history file that is readable but holds
    no JSON (an opening brace alone), raises [TypeError]; it does the same
    on a history file that cannot be read, and on a directory.  Only an
    absent file gives the fresh transcript, and then nothing is printed. *)
Theorem init_raises_on_malformed_history :
  let construct := __init__ (Cap := failing_service) (u "https://api.openai.com/v1")
    (u "Past_Conversations") (Some (u "h.json")) (u "110326_212400")
    (u "gpt-3.5-turbo") 70 150 4096 in
  (construct (world_with (File true true (u "{")))).1 = Raise TypeError
  ∧ (construct (world_with (File false true (u "[]")))).1 = Raise TypeError
  ∧ (construct (world_with Dir)).1 = Raise TypeError
  ∧ (construct empty_world).1 = Return tt
  ∧ conversation_history (construct empty_world).2.1
    = [Message (u "system") default_persona_text]
  ∧ stdout (construct empty_world).2.2 = [].
Proof. by vm_compute. Qed.

(** The counterexample to C2 as stated: three spaces are accepted as the
    custom persona; nothing is raised and the table, the active system
    message and the transcript all change. *)
Lemma set_custom_system_message_accepts_blank :
  let m := demo_manager (Cap := failing_service) 70 4096
             [system_msg default_persona_text] in
  let r := set_custom_system_message (u "   ") (m, empty_world) in
  forallb (N.eqb 32) (u "   ") = true
  ∧ r.1 = Return tt
  ∧ system_messages r.2.1 !! u "custom" = Some (u "   ")
  ∧ system_messages m !! u "custom" ≠ Some (u "   ")
  ∧ system_message r.2.1 = u "   "
  ∧ system_message m ≠ u "   "
  ∧ conversation_history r.2.1 = [system_msg (u "   ")]
  ∧ conversation_history m ≠ [system_msg (u "   ")].
Proof. by vm_compute. Qed.



(** Instances of the theorems that have hypotheses. *)

Lemma enforce_token_budget_converges_witness :
  let m := demo_manager (Cap := failing_service) 70 0
             [system_msg default_persona_text; user_msg (u "hi")] in
  ∃ m' w',
    enforce_token_budget (m, empty_world) = (Return tt, (m', w'))
    ∧ (∃ t', (total_tokens_used (m', w')).1 = Return (Some t')
             ∧ ((t' ≤ token_budget m')%Z ∨ length (conversation_history m') = 1%nat))
    ∧ ∀ w1, ∃ w2, enforce_token_budget (m', w1) = (Return tt, (m', w2)).
Proof.
  intros m.
  apply (enforce_token_budget_converges m empty_world 71);
    [by vm_compute|by vm_compute|by left].
Defined.

Lemma set_persona_unknown_witness :
  let m := demo_manager (Cap := failing_service) 70 4096
             [system_msg default_persona_text] in
  set_persona (u "nonexistent") (m, empty_world) = (Raise ValueError, (m, empty_world))
  ∧ system_message (set_persona (u "nonexistent") (m, empty_world)).2.1
    = system_message m
  ∧ conversation_history (set_persona (u "nonexistent") (m, empty_world)).2.1
    = conversation_history m.
Proof. intros m. apply set_persona_unknown. by vm_compute. Defined.

Lemma set_persona_builtin_witness :
  ∃ m', set_persona (u "sassy_assistant") (fresh_state.1, fresh_state.2)
        = (Return tt, (m', fresh_state.2))
    ∧ conversation_history m' !! 0%nat
      = Some (Message (u "system")
                (u "You are a sassy assistant that is fed up with answering questions."))
    ∧ system_message m'
      = u "You are a sassy assistant that is fed up with answering questions.".
Proof.
  apply set_persona_builtin.
  - apply (reach_init (Cap := failing_service) (u "https://api.openai.com/v1")
             (u "Past_Conversations") None (u "110326_212400")
             (u "gpt-3.5-turbo") (70 : N) 150 4096 empty_world).
    by vm_compute.
  - unfold builtin_personas. apply elem_of_cons. right. apply elem_of_cons. by left.
Defined.


Lemma operations_preserve_transcript_ok_witness :
  let m := demo_manager (Cap := hello_service) 70 4096
             [system_msg default_persona_text; user_msg (u "hi")] in
  transcript_ok (conversation_history m)
  ∧ transcript_ok
      (conversation_history
         (chat_completion (u "hello?") None None None (m, empty_world)).2.1).
Proof.
  intros m.
  assert (transcript_ok (conversation_history m)) as Hok.
  { split; [done|]. intros [|[|i]] x; [done| |done].
    intros [= <-]. by vm_compute. }
  split; [done|].
  apply (operations_preserve_transcript_ok m empty_world Hok).
Defined.


(** * Further properties of the methods *)

Section More.
Context `{Cap : Capabilities}.

(** ** The tokenizer, further *)

Lemma count_tokens_outcome text (m : manager) w :
  (count_tokens text (m, w)).1 =
    match tokens_of_text m text with inr n => Return n | inl e => Raise e end.
Proof. by destruct (count_tokens_spec text m w) as [ds ->]. Qed.

Lemma tokens_of_text_nonneg (m : manager) text n :
  tokens_of_text m text = inr n → (0 ≤ n)%Z.
Proof.
  unfold tokens_of_text.
  destruct (match encoding_for_model (default_model m) with
            | Some enc => Some enc
            | None => encoding_for_model (u "gpt-3.5-turbo")
            end) as [enc|]; [|done].
  destruct (encode enc text); [done|]. intros [= <-]. lia.
Qed.

Lemma total_of_nonneg (m : manager) h t : total_of m h = Some t → (0 ≤ t)%Z.
Proof.
  revert t. induction h as [|x h IH]; intros t; simpl; [intros [= <-]; lia|].
  destruct (tokens_of_text m (content x)) as [e|n] eqn:Hn; [done|].
  destruct (total_of m h) as [t'|]; [|done]. intros [= <-].
  apply tokens_of_text_nonneg in Hn. specialize (IH t' eq_refl). lia.
Qed.

Lemma total_of_None (m : manager) h :
  total_of m h = None ↔ ∃ x e, x ∈ h ∧ tokens_of_text m (content x) = inl e.
Proof.
  induction h as [|x h IH]; simpl.
  - split; [done|]. intros (x & e & Hx & _). by apply elem_of_nil in Hx.
  - destruct (tokens_of_text m (content x)) as [e|n] eqn:Hn.
    + split; [|done]. intros _. exists x, e. split; [apply elem_of_cons; by left|done].
    + destruct (total_of m h) as [t|].
      * split; [done|]. intros (y & e & Hy & He).
        apply elem_of_cons in Hy as [->|Hy]; [congruence|].
        assert (Some t = None) as Habs by (apply IH; by exists y, e).
        done.
      * split; [|done]. intros _. destruct (proj1 IH eq_refl) as (y & e & Hy & He).
        exists y, e. split; [apply elem_of_cons; by right|done].
Qed.

(** X1.  With a model name that [tiktoken] does not know, [count_tokens]
    prints one warning and returns or raises exactly what it does for the
    model gpt-3.5-turbo, for which it prints nothing; in both cases the
    manager and the files are as before. *)
Theorem count_tokens_unknown_model (text : pystr) (m : manager) (w : world)
    (enc : Encoding) :
  encoding_for_model (default_model m) = None →
  encoding_for_model (u "gpt-3.5-turbo") = Some enc →
  let m35 := with_default_model (u "gpt-3.5-turbo") m in
  count_tokens text (m, w)
    = ((count_tokens text (m35, w)).1,
       (m, World (fs w) (stdout w ++ [WarnModelNotFound (default_model m)])))
  ∧ (count_tokens text (m35, w)).2 = (m35, w).
Proof.
  intros Hm H35 m35. unfold count_tokens, try_except. unfold_M. simpl.
  rewrite Hm, H35. simpl. destruct w as [files out].
  destruct (encode enc text); simpl; by rewrite ?app_nil_r.
Qed.

(** X2.  [total_tokens_used] never raises and changes neither the manager
    nor the files.  It returns a number that is not negative, or [None];
    it returns [None] exactly when [count_tokens] raises for the content of
    some message of the transcript. *)
Theorem total_tokens_used_never_raises (m : manager) (w : world) :
  ∃ r ds,
    total_tokens_used (m, w) = (Return r, (m, World (fs w) (stdout w ++ ds)))
    ∧ (∀ t, r = Some t → (0 ≤ t)%Z)
    ∧ (r = None ↔
       ∃ x e, x ∈ conversation_history m
              ∧ (count_tokens (content x) (m, w)).1 = Raise e).
Proof.
  destruct (total_tokens_used_spec m w) as [ds H].
  exists (total_of m (conversation_history m)), ds. split; [done|]. split.
  - intros t. apply total_of_nonneg.
  - rewrite total_of_None. split; intros (x & e & Hx & He); exists x, e;
      (split; [done|]); rewrite count_tokens_outcome in *.
    + by rewrite He.
    + destruct (tokens_of_text m (content x)); [by injection He as ->|done].
Qed.

Lemma total_of_sublist (m : manager) h' h :
  h' `sublist_of` h → ∀ t, total_of m h = Some t →
  ∃ t', total_of m h' = Some t' ∧ (t' ≤ t)%Z.
Proof.
  induction 1 as [|x l1 l2 Hsub IH|x l1 l2 Hsub IH]; intros t; simpl.
  - intros [= <-]. by exists 0%Z.
  - destruct (tokens_of_text m (content x)) as [e|n]; [done|].
    destruct (total_of m l2) as [t2|]; [|done]. intros [= <-].
    destruct (IH t2 eq_refl) as (t1 & -> & Hle). exists (n + t1)%Z. split; [done|lia].
  - destruct (tokens_of_text m (content x)) as [e|n] eqn:Hn; [done|].
    destruct (total_of m l2) as [t2|]; [|done]. intros [= <-].
    destruct (IH t2 eq_refl) as (t1 & -> & Hle). exists t1. split; [done|].
    apply tokens_of_text_nonneg in Hn. lia.
Qed.

Lemma total_tokens_used_outcome (m : manager) w :
  (total_tokens_used (m, w)).1 = Return (total_of m (conversation_history m)).
Proof. by destruct (total_tokens_used_spec m w) as [ds ->]. Qed.

(** X3.  Removing messages never raises the total: where
    [total_tokens_used] returns a number for a transcript, it returns a
    number that is not larger for every transcript made of some of its
    messages in the same order. *)
Theorem total_tokens_used_sublist (m : manager) (w : world) (h h' : list message) (t : Z) :
  h' `sublist_of` h →
  (total_tokens_used (with_history h m, w)).1 = Return (Some t) →
  ∃ t', (total_tokens_used (with_history h' m, w)).1 = Return (Some t')
        ∧ (t' ≤ t)%Z.
Proof.
  intros Hsub. rewrite !total_tokens_used_outcome. simpl.
  rewrite !total_of_with_history. intros [= Ht].
  destruct (total_of_sublist m h' h Hsub t Ht) as (t' & -> & Hle). by exists t'.
Qed.

(** ** The budget loop, further *)

(** X4.  On a transcript whose total is within the budget,
    [enforce_token_budget] returns and leaves the manager and the files as
    they were. *)
Theorem enforce_token_budget_within_budget (m : manager) (w : world) (t : Z) :
  (total_tokens_used (m, w)).1 = Return (Some t) →
  (t ≤ token_budget m)%Z →
  ∃ ds, enforce_token_budget (m, w)
        = (Return tt, (m, World (fs w) (stdout w ++ ds))).
Proof.
  rewrite total_tokens_used_outcome. intros [= Ht] Hle.
  destruct (enforce_token_budget_spec m w) as [ds ->]. exists ds.
  rewrite evicted_history_not_over, with_history_same; [done|].
  unfold over_budget. rewrite Ht. by apply Z.ltb_ge.
Qed.

(** X5.  When [total_tokens_used] returns [None], that is when the
    tokenizer raises on some message, [enforce_token_budget] evicts
    nothing, however large the transcript: it returns with the manager and
    the files as they were, and the last line it prints reports the
    [TypeError] of comparing [None] with the budget. *)
Theorem enforce_token_budget_tokenizer_failure (m : manager) (w : world) :
  (total_tokens_used (m, w)).1 = Return None →
  ∃ ds, enforce_token_budget (m, w)
        = (Return tt,
           (m, World (fs w) (stdout w ++ ds ++ [ErrEnforceBudget TypeError]))).
Proof.
  rewrite total_tokens_used_outcome. intros [= Ht].
  unfold enforce_token_budget, try_except.
  unfold mbind, M_mbind, M_bind, attr. cbn -[budget_loop].
  destruct (budget_loop_spec (S (length (conversation_history m))) m w) as [ds H];
    [lia|].
  rewrite H, Ht. simpl. exists ds. unfold_M. simpl.
  rewrite evicted_history_not_over, with_history_same, app_assoc; [done|].
  unfold over_budget. by rewrite Ht.
Qed.

Lemma evicted_history_sublist (m : manager) h : evicted_history m h `sublist_of` h.
Proof.
  destruct h as [|first rest]; [done|]. simpl.
  destruct (survivors_drop m first rest) as (k & -> & _).
  apply sublist_skip, sublist_drop.
Qed.

(** X6.  [enforce_token_budget] always returns.  It changes no attribute
    but the transcript and touches no file; the transcript it leaves is
    made of messages of the old one in the same order, is not empty unless
    the old one was, and where the old total was a number the new total is
    a number that is not larger. *)
Theorem enforce_token_budget_frame (m : manager) (w : world) :
  ∃ h' ds,
    enforce_token_budget (m, w)
    = (Return tt, (with_history h' m, World (fs w) (stdout w ++ ds)))
    ∧ h' `sublist_of` conversation_history m
    ∧ (h' = [] ↔ conversation_history m = [])
    ∧ ∀ t, (total_tokens_used (m, w)).1 = Return (Some t) →
        ∃ t', (total_tokens_used (with_history h' m, w)).1 = Return (Some t')
              ∧ (t' ≤ t)%Z.
Proof.
  destruct (enforce_token_budget_spec m w) as [ds ->].
  exists (evicted_history m (conversation_history m)), ds.
  split; [done|]. split; [apply evicted_history_sublist|]. split.
  - by destruct (conversation_history m).
  - intros t. rewrite !total_tokens_used_outcome. simpl.
    rewrite total_of_with_history. intros [= Ht].
    destruct (total_of_sublist m _ _ (evicted_history_sublist m _) t Ht)
      as (t' & -> & Hle).
    by exists t'.
Qed.

(** X7.  [enforce_token_budget] is idempotent: in the state it leaves,
    whatever the state it started from, a second call returns and leaves
    the manager as it is. *)
Theorem enforce_token_budget_idempotent (m : manager) (w : world) :
  ∃ w', enforce_token_budget (enforce_token_budget (m, w)).2
        = (Return tt, ((enforce_token_budget (m, w)).2.1, w')).
Proof.
  destruct (enforce_token_budget_spec m w) as [ds ->]. simpl.
  destruct (enforce_token_budget_spec
              (with_history (evicted_history m (conversation_history m)) m)
              (log ds w)) as [ds' ->].
  eexists. simpl. by rewrite evicted_history_with_history, evicted_history_idem.
Qed.

(** ** The system message and the personas, further *)

Lemma visible_synced text h : visible (synced_history text h) = visible h.
Proof.
  unfold synced_history, visible. destruct h as [|[r c] rest]; [done|]. simpl.
  destruct (decide (r = u "system")) as [->|Hr].
  - by rewrite !filter_cons_False by (simpl; intros H; by apply H).
  - by rewrite (filter_cons_False _ (system_msg text)) by (simpl; intros H; by apply H).
Qed.

Lemma synced_synced t1 t2 h :
  synced_history t2 (synced_history t1 h) = synced_history t2 h.
Proof.
  unfold synced_history. destruct h as [|[r c] rest]; [done|]. simpl.
  destruct (decide (r = u "system")) as [->|Hr]; simpl; [done|].
  by destruct (decide (u "system" = u "system")).
Qed.

Lemma length_synced text h :
  (length h ≤ length (synced_history text h) ≤ S (length h))%nat.
Proof.
  unfold synced_history. destruct h as [|first rest]; simpl; [lia|].
  destruct (decide (role first = u "system")); simpl; lia.
Qed.

(** X8.  [update_system_message_in_history] always returns and touches
    neither the world nor any attribute but the transcript.  After it the
    first message is the system message holding the active system message;
    the transcript is the old one or one message longer; the messages
    whose role is not [system] are the same, in the same order; and a
    second call changes nothing. *)
Theorem update_system_message_in_history_idempotent (m : manager) (w : world) :
  ∃ h',
    update_system_message_in_history (m, w) = (Return tt, (with_history h' m, w))
    ∧ in_sync (with_history h' m)
    ∧ (length (conversation_history m) ≤ length h' ≤ S (length (conversation_history m)))%nat
    ∧ visible h' = visible (conversation_history m)
    ∧ update_system_message_in_history (with_history h' m, w)
      = (Return tt, (with_history h' m, w)).
Proof.
  eexists. split; [apply update_system_message_in_history_spec|].
  split; [apply synced_history_head|]. split; [apply length_synced|].
  split; [apply visible_synced|].
  rewrite update_system_message_in_history_spec. simpl. by rewrite synced_synced.
Qed.

(** X9.  Of two changes of persona the last one wins: calling
    [set_persona] for a known persona after [set_persona] for another
    known persona leaves exactly the state that the second call alone
    leaves. *)
Theorem set_persona_last_wins (a b ta tb : pystr) (m : manager) (w : world) :
  system_messages m !! a = Some ta →
  system_messages m !! b = Some tb →
  set_persona b (set_persona a (m, w)).2 = set_persona b (m, w).
Proof.
  intros Ha Hb. rewrite (set_persona_known a ta), (set_persona_known b tb m) by done.
  simpl. rewrite (set_persona_known b tb) by done. simpl.
  rewrite synced_synced. by destruct m.
Qed.

(** X10.  A change of persona never changes the conversation: after
    [set_persona], for any name, and after [set_custom_system_message],
    for any text, whether they return or raise, the messages whose role is
    not [system] are the same in the same order, the arguments of the
    constructor are as they were, and the world is untouched (nothing is
    saved and nothing is printed). *)
Theorem persona_change_keeps_conversation (m : manager) (w : world) :
  (∀ persona,
     visible (conversation_history (set_persona persona (m, w)).2.1)
       = visible (conversation_history m)
     ∧ config (set_persona persona (m, w)).2.1 = config m
     ∧ (set_persona persona (m, w)).2.2 = w)
  ∧ (∀ text,
     visible (conversation_history (set_custom_system_message text (m, w)).2.1)
       = visible (conversation_history m)
     ∧ config (set_custom_system_message text (m, w)).2.1 = config m
     ∧ (set_custom_system_message text (m, w)).2.2 = w).
Proof.
  split.
  - intros persona. destruct (system_messages m !! persona) as [text|] eqn:H.
    + rewrite (set_persona_known _ _ _ _ H). simpl. by rewrite visible_synced.
    + by rewrite (set_persona_missing _ _ _ H).
  - intros text. destruct (decide (text = [])) as [->|H]; [done|].
    rewrite set_custom_system_message_nonempty by done. simpl.
    by rewrite visible_synced.
Qed.

(** X11.  The custom text is remembered: after
    [set_custom_system_message] with a text that is not empty and then
    [set_persona] for any name, [set_persona] for [custom] returns and
    makes the text the active system message and the content of the first
    message again. *)
Theorem custom_persona_is_remembered (text persona : pystr) (m : manager) (w : world) :
  text ≠ [] →
  let σ1 := (set_custom_system_message text (m, w)).2 in
  let σ2 := (set_persona persona σ1).2 in
  ∃ m', set_persona (u "custom") σ2 = (Return tt, (m', w))
        ∧ system_message m' = text
        ∧ conversation_history m' !! 0%nat = Some (system_msg text).
Proof.
  intros Htext σ1 σ2. subst σ1 σ2.
  rewrite set_custom_system_message_nonempty by done. simpl.
  set (m1 := with_history _ _).
  assert (system_messages m1 !! u "custom" = Some text) as Hc
    by apply lookup_insert_eq.
  destruct (system_messages m1 !! persona) as [tp|] eqn:Hp.
  - rewrite (set_persona_known _ _ _ _ Hp). simpl.
    rewrite (set_persona_known (u "custom") text) by done.
    eexists. split; [done|]. split; [done|]. apply synced_history_head.
  - rewrite (set_persona_missing _ _ _ Hp). simpl.
    rewrite (set_persona_known (u "custom") text) by done.
    eexists. split; [done|]. split; [done|]. apply synced_history_head.
Qed.

(** X12.  For every text that is not empty,
    [set_custom_system_message] returns: the text is the [custom] entry of
    the table, whose other entries are as they were; it is the active
    system message and the content of the first message of the transcript;
    and the world is untouched. *)
Theorem set_custom_system_message_accepts (text : pystr) (m : manager) (w : world) :
  text ≠ [] →
  ∃ m',
    set_custom_system_message text (m, w) = (Return tt, (m', w))
    ∧ system_messages m' !! u "custom" = Some text
    ∧ (∀ key, key ≠ u "custom" → system_messages m' !! key = system_messages m !! key)
    ∧ system_message m' = text
    ∧ in_sync m'.
Proof.
  intros Htext. rewrite set_custom_system_message_nonempty by done.
  eexists. split; [done|]. simpl. split; [apply lookup_insert_eq|].
  split; [|split; [done|apply synced_history_head]].
  intros key Hkey. by rewrite lookup_insert_ne.
Qed.

(** ** What a call can change *)

(** The manager after any call: the old one, up to the transcript, the
    active system message and the table. *)
Lemma run_manager c (m : manager) w :
  ∃ h t tbl,
    (run c (m, w)).2.1
    = with_history h (with_system_message t (with_system_messages tbl m))
    ∧ ((tbl = system_messages m ∧ t = system_message m)
       ∨ (tbl = system_messages m ∧ ∃ p, system_messages m !! p = Some t)
       ∨ (tbl = <[u "custom" := t]> (system_messages m))).
Proof.
  assert (∀ h, ∃ h' t tbl,
            with_history h m
            = with_history h' (with_system_message t (with_system_messages tbl m))
            ∧ ((tbl = system_messages m ∧ t = system_message m)
               ∨ (tbl = system_messages m ∧ ∃ p, system_messages m !! p = Some t)
               ∨ (tbl = <[u "custom" := t]> (system_messages m)))) as Hsame.
  { intros h. exists h, (system_message m), (system_messages m).
    split; [done|]. by left. }
  pose proof (Hsame (conversation_history m)) as Hm. rewrite with_history_same in Hm.
  destruct c; simpl; unfold void, mbind, M_mbind, M_bind.
  - destruct (count_tokens_spec text m w) as [ds ->].
    by destruct (tokens_of_text m text).
  - by destruct (total_tokens_used_spec m w) as [ds ->].
  - destruct (enforce_token_budget_spec m w) as [ds ->]. apply Hsame.
  - destruct (system_messages m !! persona) as [text|] eqn:H.
    + rewrite (set_persona_known _ _ _ _ H). simpl.
      eexists _, text, (system_messages m). split; [done|]. right. left. by eauto.
    + by rewrite (set_persona_missing _ _ _ H).
  - destruct (decide (custom_message = [])) as [->|H]; [done|].
    rewrite set_custom_system_message_nonempty by done. simpl.
    eexists _, custom_message, _. split; [done|]. by right; right.
  - rewrite update_system_message_in_history_spec. apply Hsame.
  - destruct (chat_completion_spec prompt temperature max_tokens model m w) as [ds ->].
    destruct (chat_completions_create _ _ _ _) as [e|[|c choices]]; simpl; apply Hsame.
  - destruct (load_manager m w) as [h ->]. apply Hsame.
  - by rewrite save_conversation_history_spec.
  - rewrite reset_conversation_history_eq. apply Hsame.
Qed.

(** X13.  No call changes an argument of the constructor: after any
    method, whether it returns or raises, the base URL, the history file,
    the default model, temperature and answer length, and the token budget
    are as they were. *)
Theorem run_keeps_config (c : call) (m : manager) (w : world) :
  config (run c (m, w)).2.1 = config m.
Proof. by destruct (run_manager c m w) as (h & t & tbl & -> & _). Qed.

Lemma initial_dom :
  dom initial_system_messages = list_to_set (C := gset pystr) persona_keys.
Proof.
  unfold initial_system_messages, builtin_personas, persona_keys. simpl.
  rewrite !dom_insert_L, dom_empty_L. set_solver.
Qed.

Lemma init_manager url folder file ts model temp n budget w r (m : manager) w' :
  __init__ url folder file ts model temp n budget w = (r, (m, w')) →
  system_messages m = initial_system_messages
  ∧ system_message m = default_persona_text.
Proof.
  unfold __init__. intros Hinit.
  match type of Hinit with
  | load_conversation_history (?m0, ?w0) = _ =>
      destruct (load_manager m0 w0) as [h Hh]; rewrite Hinit in Hh
  end.
  simpl in Hh. by rewrite Hh.
Qed.

Lemma reachable_table (m : manager) (w : world) :
  reachable (m, w) →
  dom (system_messages m) = list_to_set (C := gset pystr) persona_keys
  ∧ ∃ key, system_messages m !! key = Some (system_message m).
Proof.
  intros H. remember (m, w) as σ eqn:Hσ. revert m w Hσ.
  induction H as [url folder file ts model temp n budget w0 σ Hinit
                 |c [m0 w0] r σ' _ IH Hrun _|m0 w0 w' _ IH]; intros m w Hσ.
  - subst σ. apply init_manager in Hinit as [-> ->].
    split; [apply initial_dom|]. by exists (u "normal_assistant").
  - destruct (IH m0 w0 eq_refl) as [Hdom [key Hkey]].
    destruct (run_manager c m0 w0) as (h & t & tbl & Hm & Hcase).
    rewrite Hrun in Hm. subst σ'. simpl in Hm. subst m. simpl.
    destruct Hcase as [[-> ->]|[[-> [p Hp]]| ->]].
    + split; [done|]. by exists key.
    + split; [done|]. by exists p.
    + split.
      * rewrite dom_insert_L, Hdom. unfold persona_keys. set_solver.
      * exists (u "custom"). apply lookup_insert_eq.
  - injection Hσ as -> ->. by apply (IH m w0).
Qed.

(** X14.  In every state of a manager the persona table has exactly the
    five keys of the constructor, and the active system message is the
    entry of one of them. *)
Theorem reachable_persona_table (m : manager) (w : world) :
  reachable (m, w) →
  dom (system_messages m) = list_to_set (C := gset pystr) persona_keys
  ∧ ∃ key, system_messages m !! key = Some (system_message m).
Proof. apply reachable_table. Qed.

(** X15.  In every state of a manager, [set_persona] returns exactly for
    the five keys of the table and raises [ValueError] exactly for every
    other name. *)
Theorem set_persona_returns_iff_key (name : pystr) (m : manager) (w : world) :
  reachable (m, w) →
  ((set_persona name (m, w)).1 = Return tt ↔ name ∈ persona_keys)
  ∧ ((set_persona name (m, w)).1 = Raise ValueError ↔ name ∉ persona_keys).
Proof.
  intros Hreach. apply reachable_table in Hreach as [Hdom _].
  assert (name ∈ persona_keys ↔ is_Some (system_messages m !! name)) as Hkey.
  { rewrite <- elem_of_dom, Hdom. by rewrite elem_of_list_to_set. }
  destruct (system_messages m !! name) as [text|] eqn:H.
  - rewrite (set_persona_known _ _ _ _ H). simpl. rewrite Hkey. split.
    + split; [by eauto|done].
    + split; [done|]. intros Hno. destruct Hno. by eauto.
  - rewrite (set_persona_missing _ _ _ H). simpl. rewrite Hkey. split.
    + split; [done|]. by intros [? ?].
    + split; [|done]. by intros _ [? ?].
Qed.

Lemma evicted_history_head (m : manager) h :
  evicted_history m h !! 0%nat = h !! 0%nat.
Proof. by destruct h. Qed.

(** X16.  Once the first message of the transcript is the system message
    that holds the active system message, it stays so after every call but
    [load_conversation_history], whether the call returns or raises. *)
Theorem run_keeps_in_sync (c : call) (m : manager) (w : world) :
  in_sync m →
  c ≠ LoadConversationHistory →
  in_sync (run c (m, w)).2.1.
Proof.
  unfold in_sync. intros Hm Hc.
  destruct c; simpl; unfold void, mbind, M_mbind, M_bind; try done.
  - destruct (count_tokens_spec text m w) as [ds ->].
    by destruct (tokens_of_text m text).
  - by destruct (total_tokens_used_spec m w) as [ds ->].
  - destruct (enforce_token_budget_spec m w) as [ds ->]. simpl.
    by rewrite evicted_history_head.
  - destruct (system_messages m !! persona) as [text|] eqn:H.
    + rewrite (set_persona_known _ _ _ _ H). simpl. apply synced_history_head.
    + by rewrite (set_persona_missing _ _ _ H).
  - destruct (decide (custom_message = [])) as [->|H]; [done|].
    rewrite set_custom_system_message_nonempty by done. simpl.
    apply synced_history_head.
  - rewrite update_system_message_in_history_spec. simpl. apply synced_history_head.
  - destruct (chat_completion_spec prompt temperature max_tokens model m w) as [ds ->].
    assert (evicted_history m (conversation_history m ++ [user_msg prompt]) !! 0%nat
            = Some (system_msg (system_message m))) as Hhead.
    { rewrite evicted_history_head, lookup_app_l; [done|].
      by apply lookup_lt_Some in Hm. }
    destruct (chat_completions_create _ _ _ _) as [e|[|a choices]]; simpl; try done.
    rewrite lookup_app_l; [done|]. by apply lookup_lt_Some in Hhead.
  - by rewrite save_conversation_history_spec.
  - by rewrite reset_conversation_history_eq.
Qed.

(** ** Saving and loading, further *)

Lemma open_write_other files path data files' p :
  open_write files path data = inr files' → p ≠ path → files' !! p = files !! p.
Proof.
  unfold open_write. destruct (files !! path) as [[|r wr d]|]; try done.
  - destruct wr; [|done]. intros [= <-] Hp. by rewrite lookup_insert_ne.
  - intros [= <-] Hp. by rewrite lookup_insert_ne.
Qed.


Lemma hexchar_ascii d : d < 16 → is_ascii_text (Json.hexchar d) = true.
Proof.
  intros Hd. unfold Json.hexchar, is_ascii_text.
  destruct (N.ltb_spec d 10); apply orb_true_iff; right;
    apply andb_true_iff; split; apply N.leb_le; lia.
Qed.

Lemma uescape_ascii n : Forall (λ c, is_ascii_text c = true) (Json.uescape n).
Proof.
  unfold Json.uescape, Json.hex4.
  assert (∀ x, N.land x 15 < 16) as Hnib.
  { intros x. change 15 with (N.ones 4). rewrite N.land_ones.
    by apply N.mod_lt. }
  repeat constructor; by apply hexchar_ascii.
Qed.

Lemma encode_char_ascii c : Forall (λ c, is_ascii_text c = true) (Json.encode_char c).
Proof.
  unfold Json.encode_char.
  destruct ((c =? 92) || (c =? 34) || negb ((32 <=? c) && (c <=? 126))) eqn:Hesc.
  - repeat (match goal with |- context [if ?b then _ else _] => destruct b end;
            [by repeat constructor|]).
    match goal with |- context [if ?b then _ else _] => destruct b end.
    + apply uescape_ascii.
    + apply Forall_app. split; apply uescape_ascii.
  - apply orb_false_iff in Hesc as [_ Hesc]. apply negb_false_iff in Hesc.
    repeat constructor. unfold is_ascii_text. by rewrite Hesc, orb_true_r.
Qed.

Lemma encode_chars_ascii s : Forall (λ c, is_ascii_text c = true) (Json.encode_chars s).
Proof.
  unfold Json.encode_chars. induction s as [|c s IH]; [done|]. simpl.
  apply Forall_app. split; [apply encode_char_ascii|done].
Qed.

Lemma newline_indent_ascii i k :
  Forall (λ c, is_ascii_text c = true) (Json.newline_indent i k).
Proof.
  unfold Json.newline_indent. constructor; [done|].
  induction (i * k)%nat; simpl; by constructor.
Qed.

Lemma encode_message_ascii x : Forall (λ c, is_ascii_text c = true) (encode_message x).
Proof.
  rewrite <- (app_nil_r (encode_message x)), encode_message_eq.
  repeat first
    [ apply Forall_nil_2
    | apply Forall_cons; split; [done|]
    | apply Forall_app; split;
        [first [apply encode_chars_ascii|apply newline_indent_ascii]|] ].
Qed.

(** X18.  The text that [save_conversation_history] writes is plain
    ASCII, whatever the messages hold: each of its characters is a line
    feed or a printable ASCII character. *)
Theorem saved_text_is_ascii (h : list message) :
  Forall (λ c, is_ascii_text c = true) (Json.dumps 4 (history_to_py h)).
Proof.
  destruct h as [|x h]; [by repeat constructor|].
  rewrite dumps_history_cons.
  apply Forall_cons; split; [done|].
  apply Forall_app; split; [apply newline_indent_ascii|].
  apply Forall_app; split; [apply encode_message_ascii|].
  apply Forall_app; split; [|by repeat constructor].
  unfold encode_more. induction h as [|y h IH]; [done|]. cbn [flat_map].
  apply Forall_app; split; [|done].
  apply Forall_cons; split; [done|].
  apply Forall_app; split; [apply newline_indent_ascii|apply encode_message_ascii].
Qed.

(** X19.  [load_conversation_history] writes no file and prints nothing,
    and changes no attribute but the transcript.  When it raises, the
    exception is [TypeError] and the manager is as it was. *)
Theorem load_conversation_history_frame (m : manager) (w : world) :
  (load_conversation_history (m, w)).2.2 = w
  ∧ (∃ h, (load_conversation_history (m, w)).2.1 = with_history h m)
  ∧ ∀ e, (load_conversation_history (m, w)).1 = Raise e →
         e = TypeError ∧ (load_conversation_history (m, w)).2.1 = m.
Proof.
  unfold load_conversation_history, try_except, read_file, json_load,
    assign_history, fresh_history.
  unfold mbind, M_mbind, M_bind, attr, assign. simpl.
  assert (∃ h, m = with_history h m) as Hsame
    by (exists (conversation_history m); by rewrite with_history_same).
  destruct (open_read _ _) as [e0|data]; simpl.
  - destruct e0; simpl; (split; [done|]); (split; [done || by eexists|]);
      by intros ? [= <-].
  - destruct (Json.loads data) as [v r| |]; simpl.
    + destruct (py_to_history v); simpl;
        (split; [done|]); (split; [done || by eexists|]); done.
    + split; [done|]. split; [done|]. by intros ? [= <-].
    + split; [done|]. split; [done|]. done.
Qed.




(** ** The request cycle, further *)

Lemma saved_log (m : manager) h ds w :
  fs (saved m h (log ds w)) = fs (saved m h w).
Proof. unfold saved. simpl. by destruct (open_write _ _ _). Qed.

Lemma saved_other (m : manager) h w p :
  p ≠ history_file m → fs (saved m h w) !! p = fs w !! p.
Proof.
  intros Hp. unfold saved. destruct (open_write _ _ _) as [e|files] eqn:Hw; [done|].
  simpl. by eapply open_write_other.
Qed.



(** X22.  When the endpoint answers with no choice at all,
    [chat_completion] raises [IndexError]: the transcript keeps what the
    budget loop made of the old transcript with the user message appended,
    no assistant message is appended and no file is written. *)
Theorem chat_completion_no_choice (prompt : pystr) (t : option Temperature)
    (n : option Z) (mo : option pystr) (m : manager) (w : world) :
  let h2 := evicted_history m (conversation_history m ++ [user_msg prompt]) in
  chat_completions_create (default (default_model m) mo) h2
    (default (default_temperature m) t) (default (default_max_tokens m) n)
    = inr [] →
  ∃ ds,
    chat_completion prompt t n mo (m, w)
    = (Raise IndexError, (with_history h2 m, World (fs w) (stdout w ++ ds))).
Proof.
  intros h2 Hnone.
  destruct (chat_completion_spec prompt t n mo m w) as [ds Hc].
  fold h2 in Hc. rewrite Hnone in Hc. by exists ds.
Qed.

(** X23.  [chat_completion] touches no path but the history file, and it
    writes the history file only when it returns an answer: when it returns
    [None] or raises, the files are as they were, so the user message it
    has appended is in memory only. *)
Theorem chat_completion_files (prompt : pystr) (t : option Temperature)
    (n : option Z) (mo : option pystr) (m : manager) (w : world) :
  let r := chat_completion prompt t n mo (m, w) in
  (∀ p, p ≠ history_file m → fs r.2.2 !! p = fs w !! p)
  ∧ ((∃ answer, r.1 = Return (Some answer)) ∨ fs r.2.2 = fs w).
Proof.
  intros r. subst r.
  destruct (chat_completion_spec prompt t n mo m w) as [ds ->].
  destruct (chat_completions_create _ _ _ _) as [e|[|c choices]]; simpl.
  - split; [done|]. by right.
  - split; [done|]. by right.
  - split; [|left; by eexists].
    intros p Hp. by rewrite saved_log, saved_other.
Qed.




(** ** The constructor, further *)




End More.

(** * Instances of the further properties *)

Lemma count_tokens_unknown_model_witness :
  let m := with_default_model (u "gpt-4")
             (demo_manager (Cap := failing_service) 70 4096
                [system_msg default_persona_text]) in
  let m35 := with_default_model (u "gpt-3.5-turbo") m in
  count_tokens (u "hi") (m, empty_world)
    = ((count_tokens (u "hi") (m35, empty_world)).1,
       (m, World (fs empty_world)
             (stdout empty_world ++ [WarnModelNotFound (default_model m)])))
  ∧ (count_tokens (u "hi") (m35, empty_world)).2 = (m35, empty_world).
Proof.
  intros m.
  apply (count_tokens_unknown_model (Cap := failing_service) (u "hi") m
           empty_world tt); by vm_compute.
Defined.

Lemma total_tokens_used_sublist_witness :
  let m := demo_manager (Cap := failing_service) 70 4096 [] in
  ∃ t', (total_tokens_used
           (with_history [system_msg default_persona_text] m, empty_world)).1
        = Return (Some t')
        ∧ (t' ≤ 71)%Z.
Proof.
  intros m.
  apply (total_tokens_used_sublist m empty_world
           [system_msg default_persona_text; user_msg (u "hi")]
           [system_msg default_persona_text] 71).
  - apply sublist_skip, sublist_cons, sublist_nil.
  - by vm_compute.
Defined.

Lemma enforce_token_budget_within_budget_witness :
  let m := demo_manager (Cap := failing_service) 70 4096
             [system_msg default_persona_text; user_msg (u "hi")] in
  ∃ ds, enforce_token_budget (m, empty_world)
        = (Return tt, (m, World (fs empty_world) (stdout empty_world ++ ds))).
Proof.
  intros m.
  apply (enforce_token_budget_within_budget m empty_world 71); by vm_compute.
Defined.

Lemma enforce_token_budget_tokenizer_failure_witness :
  let m := demo_manager (Cap := special_token_service) 70 4
             [system_msg default_persona_text; user_msg (u "<|endoftext|>");
              user_msg (u "hi")] in
  ∃ ds, enforce_token_budget (m, empty_world)
        = (Return tt,
           (m, World (fs empty_world)
                 (stdout empty_world ++ ds ++ [ErrEnforceBudget TypeError]))).
Proof.
  intros m.
  apply (enforce_token_budget_tokenizer_failure m empty_world). by vm_compute.
Defined.

Lemma set_persona_last_wins_witness :
  let m := demo_manager (Cap := failing_service) 70 4096
             [system_msg default_persona_text; user_msg (u "hi")] in
  set_persona (u "angry_assistant")
    (set_persona (u "sassy_assistant") (m, empty_world)).2
  = set_persona (u "angry_assistant") (m, empty_world).
Proof.
  intros m.
  apply (set_persona_last_wins (u "sassy_assistant") (u "angry_assistant")
           (u "You are a sassy assistant that is fed up with answering questions.")
           (u "You are an angry assistant that likes yelling in all caps.")
           m empty_world); by vm_compute.
Defined.

Lemma custom_persona_is_remembered_witness :
  let m := demo_manager (Cap := failing_service) 70 4096
             [system_msg default_persona_text] in
  let σ1 := (set_custom_system_message (u "Be brief.") (m, empty_world)).2 in
  let σ2 := (set_persona (u "sassy_assistant") σ1).2 in
  ∃ m', set_persona (u "custom") σ2 = (Return tt, (m', empty_world))
        ∧ system_message m' = u "Be brief."
        ∧ conversation_history m' !! 0%nat = Some (system_msg (u "Be brief.")).
Proof.
  intros m.
  apply (custom_persona_is_remembered (u "Be brief.") (u "sassy_assistant")
           m empty_world).
  by vm_compute.
Defined.

Lemma reachable_persona_table_witness :
  dom (system_messages fresh_state.1)
    = list_to_set (C := gset pystr) persona_keys
  ∧ ∃ key, system_messages fresh_state.1 !! key = Some (system_message fresh_state.1).
Proof.
  apply (reachable_persona_table fresh_state.1 fresh_state.2).
  apply (reach_init (Cap := failing_service) (u "https://api.openai.com/v1")
           (u "Past_Conversations") None (u "110326_212400")
           (u "gpt-3.5-turbo") (70 : N) 150 4096 empty_world).
  by vm_compute.
Defined.

Lemma run_keeps_in_sync_witness :
  let m := demo_manager (Cap := hello_service) 70 4096
             [system_msg default_persona_text; user_msg (u "hi")] in
  in_sync (run (ChatCompletion (u "hello?") None None None) (m, empty_world)).2.1.
Proof.
  intros m.
  apply (run_keeps_in_sync (ChatCompletion (u "hello?") None None None)
           m empty_world); [by vm_compute|done].
Defined.



Lemma chat_completion_no_choice_witness :
  let m := demo_manager (Cap := mute_service) 70 4096
             [system_msg default_persona_text] in
  let h2 := evicted_history m (conversation_history m ++ [user_msg (u "hi")]) in
  ∃ ds,
    chat_completion (u "hi") None None None (m, empty_world)
    = (Raise IndexError,
       (with_history h2 m, World (fs empty_world) (stdout empty_world ++ ds))).
Proof.
  intros m h2.
  exact (chat_completion_no_choice (u "hi") None None None m empty_world eq_refl).
Defined.




Lemma set_persona_returns_iff_key_witness :
  ((set_persona (u "custom") (fresh_state.1, fresh_state.2)).1 = Return tt
   ↔ u "custom" ∈ persona_keys)
  ∧ ((set_persona (u "custom") (fresh_state.1, fresh_state.2)).1 = Raise ValueError
     ↔ u "custom" ∉ persona_keys).
Proof.
  apply (set_persona_returns_iff_key (u "custom") fresh_state.1 fresh_state.2).
  apply (reach_init (Cap := failing_service) (u "https://api.openai.com/v1")
           (u "Past_Conversations") None (u "110326_212400")
           (u "gpt-3.5-turbo") (70 : N) 150 4096 empty_world).
  by vm_compute.
Defined.

Lemma set_custom_system_message_accepts_witness :
  let m := demo_manager (Cap := failing_service) 70 4096
             [system_msg default_persona_text; user_msg (u "hi")] in
  ∃ m',
    set_custom_system_message (u "Be brief.") (m, empty_world)
    = (Return tt, (m', empty_world))
    ∧ system_messages m' !! u "custom" = Some (u "Be brief.")
    ∧ (∀ key, key ≠ u "custom" → system_messages m' !! key = system_messages m !! key)
    ∧ system_message m' = u "Be brief."
    ∧ in_sync m'.
Proof.
  intros m.
  apply (set_custom_system_message_accepts (u "Be brief.") m empty_world).
  by vm_compute.
Defined.
